(** * Invoice: the document processing pipeline and the page-count estimate

    A shallow embedding of
      - [src/lib/api/document/process.ts]  ([processDocument]),
      - [src/utils/pdf/pageCount.ts]       ([getDocumentPageCount]),
      - [src/components/admin/DocumentList.tsx] ([fetchPageCounts], the page
        label and the two handlers) and
      - [src/components/admin/AdminLayout.tsx] (the navigation),
    together with the JavaScript built-ins they rely on, and the properties
    of the specification that concern them.

    The functions are [async] functions that only ever [await] one call at a
    time, so a run is one sequential chain of collaborator calls.  A run is
    modelled as a computation in a state-and-exception monad over a [World]
    (the [document_info] table and the history of collaborator calls); what
    the outside world answers to each call is given by an [Env].  The calls
    to [console.error] have no part in either and are left out. *)

From Stdlib Require Import ZArith QArith Qround Ascii String SpecFloat.
From stdpp Require Import base gmap strings list pretty.

Close Scope Q_scope.
Open Scope string_scope.

(** ** JavaScript values and built-ins *)

Module Js.

(** A string is the list of its code units.  Only code units below 256
    can be written, which is all a header value (a byte string) can hold;
    [parseInt] is applied to nothing else, and the other strings are only
    compared, concatenated and tested for emptiness. *)

(** *** Numbers

    A number is a binary64 value.  The finite ones are kept as the
    rationals they denote, and [round64] gives the binary64 value nearest
    to a rational (a tie goes to the even significand, a magnitude of
    [2^1024] or more is an infinity), which is what the language
    specifies for the value of a numeral and for the result of every
    arithmetic operation.  The two zeros are not told apart: nothing in
    this code divides by a variable or looks at the sign of a zero. *)
Inductive number := NaN | Infinity (negative : bool) | Num (q : Q).

(** [2^k], and 1 for a negative [k]. *)
Definition pow2 (k : Z) : Z := (2 ^ Z.max 0 k)%Z.

(** The quotient [n / d], for [0 < d], rounded to the nearest integer, a
    tie to the even one. *)
Definition div_nearest_even (n d : Z) : Z :=
  let f := (n / d)%Z in
  match (2 * (n mod d) ?= d)%Z with
  | Lt => f
  | Gt => (f + 1)%Z
  | Eq => if Z.even f then f else (f + 1)%Z
  end.

(** The integer part of the binary logarithm of [a / b], for positive [a]
    and [b]. *)
Definition log2_floor (a b : Z) : Z :=
  let d := (Z.log2 a - Z.log2 b)%Z in
  if (b * pow2 d <=? a * pow2 (- d))%Z then d else (d - 1)%Z.

(** The binary64 value nearest to [a / b], for positive [a] and [b]: the
    nearest multiple [m * 2^e] of the unit in the last place [2^e], where
    [e] is 52 below the exponent of [a / b] (53 bits of precision) and at
    least -1074 (the subnormal numbers). *)
Definition round64_positive (a b : Z) : number :=
  let e := Z.max (log2_floor a b - 52) (-1074) in
  let m := div_nearest_even (a * pow2 (- e)) (b * pow2 e) in
  if (2 ^ 1024 * pow2 (- e) <=? m * pow2 e)%Z then Infinity false
  else Num (Qred (m * pow2 e # Z.to_pos (pow2 (- e)))).

(** [- x] *)
Definition negate (x : number) : number :=
  match x with
  | NaN => NaN
  | Infinity negative => Infinity (negb negative)
  | Num q => Num (- q)
  end.

Definition round64 (q : Q) : number :=
  match Qnum q with
  | Z0 => Num 0
  | Zpos a => round64_positive (Zpos a) (Zpos (Qden q))
  | Zneg a => negate (round64_positive (Zpos a) (Zpos (Qden q)))
  end.

Definition is_negative (q : Q) : bool := negb (Qle_bool 0 q).

Inductive Value :=
| VUndefined
| VNull
| VStr (s : string)
| VNum (n : number).

(** An object literal: its properties in the order written. *)
Definition Object := list (string * Value).

(** ToBoolean. *)
Definition truthy (v : Value) : bool :=
  match v with
  | VUndefined | VNull => false
  | VStr s => match s with EmptyString => false | String _ _ => true end
  | VNum NaN => false
  | VNum (Infinity _) => true
  | VNum (Num q) => negb (Qeq_bool q 0)
  end.

(** [a || b] *)
Definition or_else (a b : Value) : Value := if truthy a then a else b.

(** [a || b] where both sides are strings. *)
Definition str_or (a b : string) : string :=
  match a with EmptyString => b | String _ _ => a end.

(** An optional property of type string ([p?: string]). *)
Definition of_string (o : option string) : Value :=
  match o with Some s => VStr s | None => VUndefined end.

Definition of_number (o : option number) : Value :=
  match o with Some n => VNum n | None => VUndefined end.

(** *** [parseInt(string)] with no radix argument *)

(** The white space that [parseInt] skips: of the code units below 256,
    TAB, LF, VT, FF, CR, the space and the no-break space. *)
Definition is_white (c : ascii) : bool :=
  let n := nat_of_ascii c in
  (n =? 32)%nat || ((9 <=? n)%nat && (n <=? 13)%nat) || (n =? 160)%nat.

Fixpoint trim_start (s : string) : string :=
  match s with
  | String c s' => if is_white c then trim_start s' else s
  | EmptyString => s
  end.

(** The value of [c] as a digit, when it is one in radix 16. *)
Definition digit_value (c : ascii) : option Z :=
  let n := Z.of_nat (nat_of_ascii c) in
  if (48 <=? n)%Z && (n <=? 57)%Z then Some (n - 48)%Z
  else if (97 <=? n)%Z && (n <=? 102)%Z then Some (n - 87)%Z
  else if (65 <=? n)%Z && (n <=? 70)%Z then Some (n - 55)%Z
  else None.

(** Reads the longest prefix of digits of radix [R]; [acc] is [None] as
    long as no digit has been read. *)
Fixpoint digits (R : Z) (s : string) (acc : option Z) : option Z :=
  match s with
  | EmptyString => acc
  | String c s' =>
      match digit_value c with
      | Some d =>
          if (d <? R)%Z
          then digits R s' (Some (match acc with Some a => a * R + d | None => d end)%Z)
          else acc
      | None => acc
      end
  end.

(** The result is the number value of the integer read.  (For a numeral
    of more than 20 digits an implementation may round an approximation
    of that integer instead; here the integer itself is rounded.) *)
Definition parseInt (input : string) : number :=
  let trimmed := trim_start input in
  let '(sign, unsigned) :=
    match trimmed with
    | String "-"%char rest => ((-1)%Z, rest)
    | String "+"%char rest => (1%Z, rest)
    | _ => (1%Z, trimmed)
    end in
  let '(R, body) :=
    match unsigned with
    | String "0"%char (String "x"%char rest) => (16%Z, rest)
    | String "0"%char (String "X"%char rest) => (16%Z, rest)
    | _ => (10%Z, unsigned)
    end in
  match digits R body None with
  | None => NaN
  | Some mathInt => round64 (inject_Z (sign * mathInt))
  end.

(** *** Arithmetic *)

(** [a / b].  (A zero divisor is taken to be [+0]; the only divisor in
    this code is the literal [100 * 1024].) *)
Definition div (a b : number) : number :=
  match a, b with
  | NaN, _ | _, NaN => NaN
  | Infinity _, Infinity _ => NaN
  | Infinity s, Num y => Infinity (xorb s (is_negative y))
  | Num _, Infinity _ => Num 0
  | Num x, Num y =>
      if Qeq_bool y 0
      then if Qeq_bool x 0 then NaN else Infinity (is_negative x)
      else round64 (x / y)
  end.

(** [a * b] *)
Definition mul (a b : number) : number :=
  match a, b with
  | NaN, _ | _, NaN => NaN
  | Infinity s, Infinity s' => Infinity (xorb s s')
  | Infinity s, Num y | Num y, Infinity s =>
      if Qeq_bool y 0 then NaN else Infinity (xorb s (is_negative y))
  | Num x, Num y => round64 (x * y)
  end.

(** [Math.ceil(x)]: the ceiling of a binary64 value is one. *)
Definition Math_ceil (x : number) : number :=
  match x with
  | NaN => NaN
  | Infinity s => Infinity s
  | Num q => Num (inject_Z (Qceiling q))
  end.

(** [Math.max(a, b)] *)
Definition Math_max (a b : number) : number :=
  match a, b with
  | NaN, _ | _, NaN => NaN
  | Infinity false, _ | _, Infinity false => Infinity false
  | Infinity true, x | x, Infinity true => x
  | Num x, Num y => if Qle_bool x y then Num y else Num x
  end.

(** An exception value: every rejection seen by this code is an [Error]
    (or an error object of the platform client), of which only the
    [message] is ever read. *)
Record Error := { message : string }.

End Js.
Import Js.


(** ** The [document_info] table of the persistence platform *)

(** A row maps column names to values.  The schema is not part of the
    sources, so rows are kept schema-free: exactly the columns that were
    written. *)
Abbreviation Row := (gmap string Value).
Abbreviation Table := (list Row).

(** The body of a request is [JSON.stringify] of the object: properties
    that are [undefined] are dropped, [NaN] and the infinities are written
    as [null]. *)
Definition set_column (m : Row) (kv : string * Value) : Row :=
  match kv.2 with
  | VUndefined => m
  | VNum NaN | VNum (Infinity _) => <[kv.1 := VNull]> m
  | v => <[kv.1 := v]> m
  end.

Definition to_row (o : Object) : Row := foldl set_column ∅ o.

(** Equality of two key values, as the uniqueness constraint sees it
    (a missing or [null] key equals nothing). *)
Definition same_key (a b : option Value) : bool :=
  match a, b with
  | Some (VStr x), Some (VStr y) => String.eqb x y
  | Some (VNum (Num x)), Some (VNum (Num y)) => Qeq_bool x y
  | _, _ => false
  end.

Definition conflicts (col : string) (new old : Row) : bool :=
  same_key (new !! col) (old !! col).

(** [upsert(values, { onConflict, ignoreDuplicates })]: a row that
    conflicts on the column [onConflict] is either left alone
    ([ignoreDuplicates: true]) or merged with the new one, whose columns
    win ([ignoreDuplicates: false]); without a conflict the row is
    inserted. *)
Definition db_upsert (new : Row) (onConflict : string) (ignoreDuplicates : bool)
    (tbl : Table) : Table :=
  if List.existsb (conflicts onConflict new) tbl
  then if ignoreDuplicates then tbl
       else List.map (λ old, if conflicts onConflict new old then new ∪ old else old) tbl
  else (tbl ++ [new])%list.

(** [.eq(col, v)] *)
Definition eq_column (col : string) (v : Value) (r : Row) : bool :=
  same_key (Some v) (r !! col).

(** The rows selected by [.eq('document_id', documentId)]. *)
Definition rows_for (documentId : string) (tbl : Table) : list Row :=
  List.filter (eq_column "document_id" (VStr documentId)) tbl.

(** The [{ data, error }] answer of a query. *)
Record QueryResult := { data : option Row; queryError : option Error }.

(** [.select('page_count').eq('document_id', documentId).maybeSingle()]:
    no row gives [data: null], one row gives its [page_count], several
    rows are an error. *)
Definition db_select_page_count (documentId : string) (tbl : Table) : QueryResult :=
  match rows_for documentId tbl with
  | [] => {| data := None; queryError := None |}
  | [r] => {| data := Some {[ "page_count" := default VNull (r !! "page_count") ]};
              queryError := None |}
  | _ => {| data := None;
            queryError := Some {| message := "Results contain more than one row" |} |}
  end.

(** ** Collaborators *)

(** What [extractDocumentInfo] resolves to (when not [null]). *)
Record ExtractedInfo := {
  vendorName : option string;
  invoiceNumber : option string;
  invoiceDate : option string;
  totalAmount : option number;
}.

(** The [details] objects that [processDocument] passes to the log. *)
Inductive LogDetails :=
| StartDetails (fileUrl : string)
| CompletedDetails (processingTime : Z) (extractedInfo : ExtractedInfo) (invoice_date : Value)
| FailureDetails (error_message : string) (processingTime : Z).

Record LogArgs := {
  documentId : string;
  status : string;
  step : string;
  details : LogDetails;
  errorMessage : option string;
}.

(** [{ data: { publicUrl }, error }] of [getPublicUrl]. *)
Record UrlResult := { publicUrl : string; urlError : option Error }.

(** What is read of the [Response] of [fetch]: [ok] and
    [headers.get('content-length')]. *)
Record Response := { ok : bool; content_length : option string }.

(** The result of [processDocument] ([ProcessingResult]). *)
Record ProcessingResult := { success : bool; error : option string }.

(** A collaborator call, as issued. *)
Inductive Call :=
| CallLog (args : LogArgs)
| CallGetPublicUrl (bucket path : string)
| CallExtract (url : string)
| CallUpsert (table : string) (values : Object) (onConflict : string) (ignoreDuplicates : bool)
| CallSelectPageCount (table : string) (documentId : string)
| CallFetchHead (url : string).

(** An awaited call either resolves or rejects. *)
Inductive Outcome (A : Type) :=
| Returns (a : A)
| Throws (e : Error).
Arguments Returns {A} a.
Arguments Throws {A} e.

(** The behaviour of the outside world.  Calls are numbered in the order
    they are issued (across invocations); the [n]-th call is answered by
    the reply at [n] of its collaborator.  Every collaborator may reject
    ([Throws]); the platform client may also resolve to an [error]
    ([Returns (Some e)]).  An upsert is applied exactly when its reply is
    [Returns None]; a query that is answered ([Returns None]) is answered
    from the table. *)
Record Env := {
  clock : nat -> Z;
  log_reply : nat -> Outcome unit;
  url_reply : nat -> Outcome UrlResult;
  extract_reply : nat -> Outcome (option ExtractedInfo);
  upsert_reply : nat -> Outcome (option Error);
  select_reply : nat -> Outcome (option Error);
  fetch_reply : nat -> Outcome Response;
}.

(** Functions that are pure and not part of the sources, taken as
    parameters: [parseDate] of [utils/date], which by the specification
    (4.2) gives the canonical date or a sentinel of failure and never
    throws (here a string, or [null] when the text is not a date), and
    [Date.prototype.toISOString]. *)
Record Runtime := {
  utils_date_parseDate : string -> option string;
  toISOString : Z -> string;
}.

(** [parseDate(text)] *)
Definition parseDate (rt : Runtime) (text : string) : Value :=
  match utils_date_parseDate rt text with
  | Some date => VStr date
  | None => VNull
  end.

(** The state a run acts on: the table, and the calls issued so far, most
    recent first. *)
Record World := {
  document_info : Table;
  history : list Call;
}.

Definition tick (w : World) : nat := length (history w).

Definition record (c : Call) (w : World) : World :=
  {| document_info := document_info w; history := c :: history w |}.

(** ** The monad of [async] bodies: state and exceptions *)

Definition M (A : Type) : Type := World -> Outcome A * World.

#[global] Instance M_ret : MRet M := λ A (a : A) w, (Returns a, w).

#[global] Instance M_bind : MBind M := λ A B (f : A -> M B) (c : M A) w,
  match c w with
  | (Returns a, w') => f a w'
  | (Throws e, w') => (Throws e, w')
  end.

(** [throw e] *)
Definition throw {A : Type} (e : Error) : M A := λ w, (Throws e, w).

(** [try { body } catch (error) { handler }] *)
Definition try_catch {A : Type} (body : M A) (handler : Error -> M A) : M A := λ w,
  match body w with
  | (Returns a, w') => (Returns a, w')
  | (Throws e, w') => handler e w'
  end.

(** [if (c) throw e;] *)
Definition throw_if (c : bool) (e : Error) : M unit :=
  if c then throw e else mret tt.

Section Pipeline.

Context (rt : Runtime) (env : Env).

Definition Date_now : M Z := λ w, (Returns (clock env (tick w)), w).

Definition new_Date_toISOString : M string := λ w,
  (Returns (toISOString rt (clock env (tick w))), w).

Definition logProcessing (args : LogArgs) : M unit := λ w,
  (log_reply env (tick w), record (CallLog args) w).

Definition getPublicUrl (bucket path : string) : M UrlResult := λ w,
  (url_reply env (tick w), record (CallGetPublicUrl bucket path) w).

Definition extractDocumentInfo (url : string) : M (option ExtractedInfo) := λ w,
  (extract_reply env (tick w), record (CallExtract url) w).

Definition fetch_head (url : string) : M Response := λ w,
  (fetch_reply env (tick w), record (CallFetchHead url) w).

(** [supabase.from(table).upsert(values, { onConflict, ignoreDuplicates })],
    resolving to its [error]. *)
Definition upsert (table : string) (values : Object) (onConflict : string)
    (ignoreDuplicates : bool) : M (option Error) := λ w,
  let w' := record (CallUpsert table values onConflict ignoreDuplicates) w in
  match upsert_reply env (tick w) with
  | Returns None =>
      (Returns None,
       {| document_info :=
            db_upsert (to_row values) onConflict ignoreDuplicates (document_info w);
          history := history w' |})
  | reply => (reply, w')
  end.

(** [supabase.from(table).select('page_count').eq('document_id', id).maybeSingle()] *)
Definition select_page_count (table : string) (id : string) : M QueryResult := λ w,
  let w' := record (CallSelectPageCount table id) w in
  match select_reply env (tick w) with
  | Returns None => (Returns (db_select_page_count id (document_info w)), w')
  | Returns (Some e) => (Returns {| data := None; queryError := Some e |}, w')
  | Throws e => (Throws e, w')
  end.

(** ** [processDocument] *)

Definition processDocument (documentId fileUrl : string) : M ProcessingResult :=
  startTime ← Date_now;
  try_catch
    (throw_if (negb (truthy (VStr documentId))) {| message := "Invalid document ID" |};;
     logProcessing {| documentId := documentId;
                      status := "processing";
                      step := "Starting document processing";
                      details := StartDetails fileUrl;
                      errorMessage := None |};;
     url ← getPublicUrl "documents" fileUrl;
     throw_if (bool_decide (is_Some (urlError url)))
       {| message := "Failed to get document URL" |};;
     extracted ← extractDocumentInfo (publicUrl url);
     match extracted with
     | None => throw {| message := "Failed to extract document information" |}
     | Some extractedInfo =>
         let parsedDate :=
           if truthy (of_string (invoiceDate extractedInfo))
           then parseDate rt (default "" (invoiceDate extractedInfo))
           else VNull in
         throw_if (truthy (of_string (invoiceDate extractedInfo)) && negb (truthy parsedDate))
           {| message := "Invalid date format: " ++ default "" (invoiceDate extractedInfo) |};;
         processed_at ← new_Date_toISOString;
         updated_at ← new_Date_toISOString;
         dbError ← upsert "document_info"
           [("document_id", VStr documentId);
            ("vendor_name", of_string (vendorName extractedInfo));
            ("invoice_number", of_string (invoiceNumber extractedInfo));
            ("invoice_date", parsedDate);
            ("total_amount", of_number (totalAmount extractedInfo));
            ("processing_status", VStr "completed");
            ("processed_at", VStr processed_at);
            ("updated_at", VStr updated_at);
            ("file_url", VStr fileUrl)]
           "document_id" false;
         match dbError with
         | Some e => throw {| message := "Failed to save document information: " ++ message e |}
         | None => mret tt
         end;;
         finished ← Date_now;
         logProcessing {| documentId := documentId;
                          status := "completed";
                          step := "Document processing completed";
                          details := CompletedDetails (finished - startTime)
                                       extractedInfo parsedDate;
                          errorMessage := None |};;
         mret {| success := true; error := None |}
     end)
    (λ caught,
       failed ← Date_now;
       logProcessing {| documentId := documentId;
                        status := "error";
                        step := "Document processing failed";
                        details := FailureDetails (message caught) (failed - startTime);
                        errorMessage := Some (message caught) |};;
       updated_at ← new_Date_toISOString;
       upsert "document_info"
         [("document_id", VStr documentId);
          ("processing_status", VStr "error");
          ("error_message", VStr (message caught));
          ("updated_at", VStr updated_at)]
         "document_id" false;;
       mret {| success := false;
               error := Some (str_or (message caught) "Failed to process document") |}).

(** ** [getDocumentPageCount] *)

(** [docInfo?.page_count] *)
Definition page_count_of (docInfo : option Row) : Value :=
  match docInfo with
  | None => VUndefined
  | Some r => default VUndefined (r !! "page_count")
  end.

(** The estimate of lines 26-27, from the [content-length] header (or
    [null] when the header is absent). *)
Definition estimatedPages_of (header : option string) : number :=
  let contentLength := parseInt (str_or (default "" header) "0") in
  Math_max (Num 1) (Math_ceil (div contentLength (mul (Num 100) (Num 1024)))).

Definition getDocumentPageCount (documentId fileUrl : string) : M Value :=
  try_catch
    (q ← select_page_count "document_info" documentId;
     if negb (bool_decide (is_Some (queryError q))) && truthy (page_count_of (data q))
     then mret (page_count_of (data q))
     else
       url ← getPublicUrl "documents" fileUrl;
       match urlError url with Some e => throw e | None => mret tt end;;
       response ← fetch_head (publicUrl url);
       throw_if (negb (ok response)) {| message := "Failed to fetch document info" |};;
       let estimatedPages := estimatedPages_of (content_length response) in
       updated_at ← new_Date_toISOString;
       upsert "document_info"
         [("document_id", VStr documentId);
          ("page_count", VNum estimatedPages);
          ("updated_at", VStr updated_at)]
         "document_id" false;;
       mret (VNum estimatedPages))
    (λ _, mret (VNum (Num 1))).

End Pipeline.


(** ** [DocumentList]: the callers of the two functions *)

(** What [DocumentList] reads of a [Document] ([id], [name], [file_urls],
    [created_at]). *)
Record Document := {
  doc_id : string;
  doc_name : string;
  file_urls : list string;
  created_at : string;
}.

(** The state of the component that its handlers change: [previewUrl]
    (of [useState]), the error toasts shown and the windows opened, most
    recent first. *)
Record View := {
  previewUrl : option string;
  toasts : list string;
  opened : list (string * string);
}.

Definition setPreviewUrl (url : option string) (v : View) : View :=
  {| previewUrl := url; toasts := toasts v; opened := opened v |}.

(** [toast.error(msg)] *)
Definition toast_error (msg : string) (v : View) : View :=
  {| previewUrl := previewUrl v; toasts := msg :: toasts v; opened := opened v |}.

(** [window.open(url, target)] *)
Definition window_open (url target : string) (v : View) : View :=
  {| previewUrl := previewUrl v; toasts := toasts v; opened := (url, target) :: opened v |}.

(** *** Plain objects used as maps

    [counts] and [pageCounts] are plain objects ([{}]) indexed by file
    URL.  A plain object has its own properties and, as long as its
    prototype is [Object.prototype], inherits the members of that
    prototype. *)
Record PlainObject := { own : gmap string Value; inherits : bool }.

(** [{}] *)
Definition empty_object : PlainObject := {| own := ∅; inherits := true |}.

(** The members of [Object.prototype]: functions, and the accessor
    ['__proto__']. *)
Definition Object_prototype : list string :=
  ["constructor"; "hasOwnProperty"; "isPrototypeOf"; "propertyIsEnumerable";
   "toLocaleString"; "toString"; "valueOf"; "__proto__";
   "__defineGetter__"; "__defineSetter__"; "__lookupGetter__"; "__lookupSetter__"].

(** [o[k] = v].  The assignment to ['__proto__'] runs the inherited
    setter, which sets the prototype when [v] is [null] (or an object) and
    does nothing for any other value; every other assignment sets an own
    property. *)
Definition set_property (k : string) (v : Value) (o : PlainObject) : PlainObject :=
  if String.eqb k "__proto__" && inherits o
  then match v with
       | VNull => {| own := own o; inherits := false |}
       | _ => o
       end
  else {| own := <[k := v]> (own o); inherits := inherits o |}.

(** What [o[k]] evaluates to: the value of an own property, [undefined],
    or a member inherited from [Object.prototype] (a function, or for
    ['__proto__'] the prototype itself). *)
Inductive Member :=
| Data (v : Value)
| Inherited (name : string).

Definition get_property (o : PlainObject) (k : string) : Member :=
  match own o !! k with
  | Some v => Data v
  | None =>
      if inherits o && bool_decide (k ∈ Object_prototype) then Inherited k
      else Data VUndefined
  end.

Section Callers.

Context (rt : Runtime) (env : Env).

(** The inner loop of [fetchPageCounts] (lines 26-33), over the files of
    one document. *)
Fixpoint fetch_file_counts (id : string) (urls : list string)
    (counts : PlainObject) : M PlainObject :=
  match urls with
  | [] => mret counts
  | url :: rest =>
      counts ← try_catch
                 (count ← getDocumentPageCount rt env id url;
                  mret (set_property url count counts))
                 (λ _, mret (set_property url (VNum (Num 1)) counts));
      fetch_file_counts id rest counts
  end.

(** The outer loop (lines 25-34), over the documents. *)
Fixpoint fetch_document_counts (documents : list Document)
    (counts : PlainObject) : M PlainObject :=
  match documents with
  | [] => mret counts
  | doc :: rest =>
      counts ← fetch_file_counts (doc_id doc) (file_urls doc) counts;
      fetch_document_counts rest counts
  end.

(** [fetchPageCounts] (lines 22-37); its result is what [setPageCounts]
    receives. *)
Definition fetchPageCounts (documents : list Document) : M PlainObject :=
  fetch_document_counts documents empty_object.

(** [handlePreview] (lines 42-54) *)
Definition handlePreview (path : string) (v : View) : M View :=
  try_catch
    (url ← getPublicUrl env "documents" path;
     match urlError url with Some e => throw e | None => mret tt end;;
     mret (setPreviewUrl (Some (publicUrl url)) v))
    (λ caught, mret (toast_error ("Failed to preview file: " ++ message caught) v)).

(** [handleOpenInNewTab] (lines 56-68) *)
Definition handleOpenInNewTab (path : string) (v : View) : M View :=
  try_catch
    (url ← getPublicUrl env "documents" path;
     match urlError url with Some e => throw e | None => mret tt end;;
     mret (window_open (publicUrl url) "_blank" v))
    (λ caught, mret (toast_error ("Failed to open file: " ++ message caught) v)).

End Callers.

(** [{pageCounts[url] || 1}] (line 100); an inherited member is an
    object, hence truthy. *)
Definition shown_pages (pageCounts : PlainObject) (url : string) : Member :=
  match get_property pageCounts url with
  | Data v => Data (or_else v (VNum (Num 1)))
  | Inherited name => Inherited name
  end.

(** ** [AdminLayout]: the navigation *)

Module Admin.

Record NavItem := { path : string; label : string; icon : string }.

Definition navItems : list NavItem :=
  [ {| path := "/admin/departments"; label := "Departments"; icon := "Building2" |};
    {| path := "/admin/employees"; label := "Employees"; icon := "Users" |};
    {| path := "/admin/invoices"; label := "Documents"; icon := "FileText" |};
    {| path := "/admin/upload"; label := "Upload"; icon := "Upload" |} ].

(** [location.pathname === item.path] *)
Definition isActive (pathname : string) (item : NavItem) : bool :=
  String.eqb pathname (path item).

(** The classes of the two states of a link (lines 28-31). *)
Definition state_classes (active : bool) : string :=
  if active then "bg-gray-900 text-white"
  else "text-gray-300 hover:bg-gray-700 hover:text-white".

(** What is rendered for an item: [to], the state classes and the
    label. *)
Definition links (pathname : string) : list (string * string * string) :=
  List.map (λ item, (path item, state_classes (isActive pathname item), label item))
    navItems.

End Admin.
(** ** Vocabulary of the properties *)

(** The calls issued between [w] and [w'], most recent first. *)
Definition issued (w w' : World) (calls : list Call) : Prop :=
  history w' = (calls ++ history w)%list.

(** [c] is the first call issued after [w], on the way to [w']. *)
Definition issued_first (w w' : World) (c : Call) : Prop :=
  ∃ later, history w' = (later ++ c :: history w)%list.

(** The rows of the table of [w] for [documentId]. *)
Definition records (documentId : string) (w : World) : list Row :=
  rows_for documentId (document_info w).

(** The uniqueness constraint on [document_id], for one identifier. *)
Definition unique_record (documentId : string) (w : World) : Prop :=
  (length (records documentId w) ≤ 1)%nat.

(** The value of property [k] of an object literal. *)
Definition property (k : string) (o : Object) : option Value :=
  snd <$> List.find (λ kv, String.eqb k kv.1) o.

(** The result of a successful run. *)
Definition succeeded : ProcessingResult := {| success := true; error := None |}.

(** The result of a failed run. *)
Definition failed_with (msg : string) : ProcessingResult :=
  {| success := false; error := Some msg |}.

(** The log entry written first (lines 16-21). *)
Definition start_entry (documentId fileUrl : string) : LogArgs :=
  {| documentId := documentId;
     status := "processing";
     step := "Starting document processing";
     details := StartDetails fileUrl;
     errorMessage := None |}.

(** The log entry of the [catch] block (lines 86-95). *)
Definition failure_entry (documentId msg : string) (processingTime : Z) : LogArgs :=
  {| documentId := documentId;
     status := "error";
     step := "Document processing failed";
     details := FailureDetails msg processingTime;
     errorMessage := Some msg |}.

(** The object sent by the upsert of the [catch] block (lines 98-108). *)
Definition error_values (documentId msg updated_at : string) : Object :=
  [("document_id", VStr documentId);
   ("processing_status", VStr "error");
   ("error_message", VStr msg);
   ("updated_at", VStr updated_at)].

(** The extracted date, when there is one, is a date for [parseDate]. *)
Definition date_parses (rt : Runtime) (info : ExtractedInfo) : Prop :=
  ∀ d, invoiceDate info = Some d → d ≠ "" → truthy (parseDate rt d) = true.

(** [s] occurs in [msg]. *)
Definition contains (msg s : string) : Prop :=
  ∃ before after, msg = before ++ s ++ after.

(** A positive integer, as a JavaScript value. *)
Definition positive_integer (v : Value) : Prop :=
  ∃ k : Z, (1 ≤ k)%Z ∧ v = VNum (Num (inject_Z k)).

(** What [docInfo?.page_count] is when the lookup is answered. *)
Definition stored_page_count (documentId : string) (w : World) : Value :=
  page_count_of (data (db_select_page_count documentId (document_info w))).

(** A stored page count, when there is one, is a positive integer. *)
Definition stored_count_positive (documentId : string) (w : World) : Prop :=
  truthy (stored_page_count documentId w) = true →
  positive_integer (stored_page_count documentId w).

(** The lookup gives no page count: it is answered with an error, or
    nothing (or zero) is stored. *)
Definition lookup_misses (env : Env) (documentId : string) (w : World) : Prop :=
  (∃ e, select_reply env (tick w) = Returns (Some e))
  ∨ (select_reply env (tick w) = Returns None
     ∧ truthy (stored_page_count documentId w) = false).

(** One of the steps of the estimate, issued from call number [t] on,
    fails in a way that reaches the [catch] block: a call rejects, the URL
    resolution reports an error, or the probe is not [ok]. *)
Definition estimate_fails (env : Env) (t : nat) : Prop :=
  (∃ e, url_reply env t = Throws e)
  ∨ (∃ u e, url_reply env t = Returns {| publicUrl := u; urlError := Some e |})
  ∨ (∃ e, fetch_reply env (1 + t) = Throws e)
  ∨ (∃ r, fetch_reply env (1 + t) = Returns r ∧ ok r = false)
  ∨ (∃ e, upsert_reply env (2 + t) = Throws e).

(** Every [content-length] header the probe can answer with is numeric. *)
Definition numeric_content_length (env : Env) : Prop :=
  ∀ t r, fetch_reply env t = Returns r →
         parseInt (str_or (default "" (content_length r)) "0") ≠ NaN.

(** Every [content-length] header the probe can answer with is read by
    [parseInt] as an integer below [2^53], the range in which the
    arithmetic of the estimate is exact. *)
Definition safe_content_length (env : Env) : Prop :=
  ∀ t r, fetch_reply env t = Returns r →
         ∃ n, parseInt (str_or (default "" (content_length r)) "0") = Num (inject_Z n)
              ∧ (n < 2 ^ 53)%Z.

(** The ceiling of [a / b], for [0 < b]. *)
Definition ceil_div (a b : Z) : Z := (- ((- a) / b))%Z.

(** Following the words of the specification:
    [max(1, ceil(contentLength / 102400))], on integers. *)
Definition spec_estimated_pages (contentLength : Z) : Z :=
  Z.max 1 (ceil_div contentLength 102400).

(** ** Sample environments *)

Definition invoice_42 : ExtractedInfo :=
  {| vendorName := Some "ACME Ltd";
     invoiceNumber := Some "INV-42";
     invoiceDate := Some "01/03/2024";
     totalAmount := Some (Num (12345 # 100)) |}.

Definition invoice_bad_date : ExtractedInfo :=
  {| vendorName := Some "ACME Ltd";
     invoiceNumber := Some "INV-42";
     invoiceDate := Some "not-a-date";
     totalAmount := Some (Num (12345 # 100)) |}.

(** A runtime whose [parseDate] knows one date. *)
Definition sample_runtime : Runtime :=
  {| utils_date_parseDate :=
       λ s, if String.eqb s "01/03/2024" then Some "2024-03-01" else None;
     toISOString := λ ms, "T+" ++ pretty ms |}.

Definition sample_url : string := "https://storage/documents/a.pdf".

(** Every call succeeds; the extraction returns [extracted] and the probe
    answers with [header] as content length. *)
Definition reliable (extracted : option ExtractedInfo) (header : option string) : Env :=
  {| clock := λ n, Z.of_nat n;
     log_reply := λ _, Returns tt;
     url_reply := λ _, Returns {| publicUrl := sample_url; urlError := None |};
     extract_reply := λ _, Returns extracted;
     upsert_reply := λ _, Returns None;
     select_reply := λ _, Returns None;
     fetch_reply := λ _, Returns {| ok := true; content_length := header |} |}.

(** As [reliable], but every write to the log rejects. *)
Definition log_down (extracted : option ExtractedInfo) : Env :=
  {| clock := clock (reliable extracted None);
     log_reply := λ _, Throws {| message := "log unavailable" |};
     url_reply := url_reply (reliable extracted None);
     extract_reply := extract_reply (reliable extracted None);
     upsert_reply := upsert_reply (reliable extracted None);
     select_reply := select_reply (reliable extracted None);
     fetch_reply := fetch_reply (reliable extracted None) |}.

(** As [reliable], but the first call, when it is a write to the log,
    rejects. *)
Definition first_log_fails (extracted : option ExtractedInfo) : Env :=
  {| clock := clock (reliable extracted None);
     log_reply := λ n, match n with
                       | O => Throws {| message := "log unavailable" |}
                       | S _ => Returns tt
                       end;
     url_reply := url_reply (reliable extracted None);
     extract_reply := extract_reply (reliable extracted None);
     upsert_reply := upsert_reply (reliable extracted None);
     select_reply := select_reply (reliable extracted None);
     fetch_reply := fetch_reply (reliable extracted None) |}.


(** As [reliable], but the probe is answered with a response that is not
    [ok]. *)
Definition probe_fails : Env :=
  {| clock := clock (reliable None None);
     log_reply := log_reply (reliable None None);
     url_reply := url_reply (reliable None None);
     extract_reply := extract_reply (reliable None None);
     upsert_reply := upsert_reply (reliable None None);
     select_reply := select_reply (reliable None None);
     fetch_reply := λ _, Returns {| ok := false; content_length := None |} |}.

Definition empty_world : World := {| document_info := []; history := [] |}.

(** The run on the record with the bad date. *)
Definition bad_date_run : Outcome ProcessingResult * World :=
  processDocument sample_runtime (reliable (Some invoice_bad_date) None) "doc-1" "a.pdf"
    empty_world.

(** The world after one, and after two, successful runs for ["doc-1"]. *)
Definition after_first_run : World :=
  (processDocument sample_runtime (reliable (Some invoice_42) None) "doc-1" "a.pdf"
     empty_world).2.

Definition after_second_run : World :=
  (processDocument sample_runtime (reliable (Some invoice_42) None) "doc-1" "a.pdf"
     after_first_run).2.

(** ** Further vocabulary *)

(** The table after the upserts of [rows] on [document_id], in order. *)
Definition upserts (rows : list Row) (tbl : Table) : Table :=
  foldl (λ t r, db_upsert r "document_id" false t) tbl rows.

Definition is_log (c : Call) : bool :=
  match c with CallLog _ => true | _ => false end.

Definition is_url (c : Call) : bool :=
  match c with CallGetPublicUrl _ _ => true | _ => false end.

Definition is_extract (c : Call) : bool :=
  match c with CallExtract _ => true | _ => false end.

Definition is_upsert (c : Call) : bool :=
  match c with CallUpsert _ _ _ _ => true | _ => false end.

Definition is_select (c : Call) : bool :=
  match c with CallSelectPageCount _ _ => true | _ => false end.

Definition is_fetch (c : Call) : bool :=
  match c with CallFetchHead _ => true | _ => false end.

(** How many of [calls] satisfy [p]. *)
Definition count_calls (p : Call → bool) (calls : list Call) : nat :=
  length (List.filter p calls).

(** The cost of the calls issued for [files] files. *)
Definition within_budget (files : nat) (calls : list Call) : Prop :=
  count_calls is_select calls = files
  ∧ (length calls ≤ 4 * files)%nat
  ∧ count_calls is_log calls = 0%nat
  ∧ count_calls is_extract calls = 0%nat.

(** A stored page count that is [null] or a positive integer. *)
Definition well_formed_count (v : Value) : Prop :=
  v = VNull ∨ positive_integer v.

(** Every page count of the table is well formed. *)
Definition page_counts_well_formed (tbl : Table) : Prop :=
  ∀ r v, r ∈ tbl → r !! "page_count" = Some v → well_formed_count v.

(** The files of [documents], in the order they are visited. *)
Definition all_file_urls (documents : list Document) : list string :=
  List.concat (List.map file_urls documents).

(** A table with a row for ["doc-1"], which failed earlier and has a
    stored page count, and a processed row for ["doc-2"]. *)
Definition doc_1_row : Row :=
  to_row [("document_id", VStr "doc-1");
          ("processing_status", VStr "error");
          ("error_message", VStr "Failed to extract document information");
          ("page_count", VNum (Num 7))].

Definition doc_2_row : Row :=
  to_row [("document_id", VStr "doc-2");
          ("vendor_name", VStr "Initech");
          ("processing_status", VStr "completed")].

Definition two_documents : World :=
  {| document_info := [doc_1_row; doc_2_row]; history := [] |}.

(** An extracted record without a date. *)
Definition invoice_undated : ExtractedInfo :=
  {| vendorName := Some "ACME Ltd";
     invoiceNumber := Some "INV-43";
     invoiceDate := Some "";
     totalAmount := None |}.

(** A document with two files. *)
Definition two_files : Document :=
  {| doc_id := "doc-1"; doc_name := "March invoices";
     file_urls := ["a.pdf"; "b.pdf"]; created_at := "2024-03-01" |}.

(** As [reliable], but the extraction rejects with an error whose message
    is empty. *)
Definition extraction_rejects_silently : Env :=
  {| clock := clock (reliable None None);
     log_reply := log_reply (reliable None None);
     url_reply := url_reply (reliable None None);
     extract_reply := λ _, Throws {| message := "" |};
     upsert_reply := upsert_reply (reliable None None);
     select_reply := select_reply (reliable None None);
     fetch_reply := fetch_reply (reliable None None) |}.

(** As [reliable], but the URL resolution reports an error. *)
Definition storage_error : Env :=
  {| clock := clock (reliable None None);
     log_reply := log_reply (reliable None None);
     url_reply := λ _, Returns {| publicUrl := "";
                                  urlError := Some {| message := "Object not found" |} |};
     extract_reply := extract_reply (reliable None None);
     upsert_reply := upsert_reply (reliable None None);
     select_reply := select_reply (reliable None None);
     fetch_reply := fetch_reply (reliable None None) |}.

(** As [reliable], but the first upsert (the fourth call) is answered
    with an error. *)
Definition save_fails (extracted : option ExtractedInfo) : Env :=
  {| clock := clock (reliable extracted None);
     log_reply := log_reply (reliable extracted None);
     url_reply := url_reply (reliable extracted None);
     extract_reply := extract_reply (reliable extracted None);
     upsert_reply := λ n, match n with
                          | 3%nat => Returns (Some {| message := "permission denied" |})
                          | _ => Returns None
                          end;
     select_reply := select_reply (reliable extracted None);
     fetch_reply := fetch_reply (reliable extracted None) |}.

Definition empty_view : View := {| previewUrl := None; toasts := []; opened := [] |}.


(** As [reliable], but the write to the log issued as call number [n]
    rejects. *)
Definition log_fails_at (n : nat) (extracted : option ExtractedInfo) : Env :=
  {| clock := clock (reliable extracted None);
     log_reply := λ t, if (t =? n)%nat then Throws {| message := "log unavailable" |}
                       else Returns tt;
     url_reply := url_reply (reliable extracted None);
     extract_reply := extract_reply (reliable extracted None);
     upsert_reply := upsert_reply (reliable extracted None);
     select_reply := select_reply (reliable extracted None);
     fetch_reply := fetch_reply (reliable extracted None) |}.

(** As [log_fails_at 4] (the write of the 'completed' entry rejects), and
    the platform answers the upsert of the [catch] block with an error. *)
Definition completion_unlogged (extracted : option ExtractedInfo) : Env :=
  {| clock := clock (reliable extracted None);
     log_reply := log_reply (log_fails_at 4 extracted);
     url_reply := url_reply (reliable extracted None);
     extract_reply := extract_reply (reliable extracted None);
     upsert_reply := λ n, match n with
                          | 3%nat => Returns None
                          | _ => Returns (Some {| message := "connection refused" |})
                          end;
     select_reply := select_reply (reliable extracted None);
     fetch_reply := fetch_reply (reliable extracted None) |}.

(** As [reliable], but every upsert rejects. *)
Definition upsert_rejects (header : option string) : Env :=
  {| clock := clock (reliable None header);
     log_reply := log_reply (reliable None header);
     url_reply := url_reply (reliable None header);
     extract_reply := extract_reply (reliable None header);
     upsert_reply := λ _, Throws {| message := "connection lost" |};
     select_reply := select_reply (reliable None header);
     fetch_reply := fetch_reply (reliable None header) |}.

(** The world after one, and after two, successful runs for ["doc-1"]
    that start from [two_documents]. *)
Definition retried_once : World :=
  (processDocument sample_runtime (reliable (Some invoice_42) None) "doc-1" "a.pdf"
     two_documents).2.

Definition retried_twice : World :=
  (processDocument sample_runtime (reliable (Some invoice_42) None) "doc-1" "a.pdf"
     retried_once).2.

(** The columns sent by the upsert of the extracted fields (lines 48-57). *)
Definition completed_columns : list string :=
  ["document_id"; "vendor_name"; "invoice_number"; "invoice_date"; "total_amount";
   "processing_status"; "processed_at"; "updated_at"; "file_url"].

(** ** Binary64 numbers of the standard library

    [SpecFloat] is the specification of IEEE 754 arithmetic of the
    standard library; [round64] is compared with it on samples. *)

(** The number that a binary64 value of [SpecFloat] denotes. *)
Definition of_spec_float (f : spec_float) : number :=
  match f with
  | S754_zero _ => Num 0
  | S754_infinity negative => Infinity negative
  | S754_nan => NaN
  | S754_finite negative m e =>
      Num (Qred ((if negative then Z.neg m else Z.pos m) * pow2 e # Z.to_pos (pow2 (- e))))
  end.

(** The binary64 value nearest to an integer. *)
Definition binary64_of_Z (n : Z) : spec_float := binary_normalize 53 1024 n 0 false.

Definition sample_quotients : list (Z * Z) :=
  [(1, 3); (1, 10); (2, 3); (-7, 5); (355, 113);
   (250000, 102400); (102401, 102400); (204800, 102400);
   (9007199254740991, 102400); (112589990684262400, 102400);
   (1, 9007199254740991)]%Z.

Definition sample_integers : list Z :=
  [0; 1; -5; 250000; 9007199254740991; 9007199254740993; 9007199254740995;
   112589990684262401; 10 ^ 400; - 10 ^ 400;
   2 ^ 1024 - 2 ^ 970; 2 ^ 1024 - 2 ^ 970 - 1]%Z.
(** ** Running the model *)

Arguments set_column : simpl never.
Arguments to_row : simpl never.
Arguments db_upsert : simpl never.
Arguments rows_for : simpl never.
Arguments eq_column : simpl never.
Arguments db_select_page_count : simpl never.
Arguments page_count_of : simpl never.
Arguments estimatedPages_of : simpl never.
Arguments parseInt : simpl never.
Arguments round64 : simpl never.
Arguments parseDate : simpl never.

(** Exposes the body of a run. *)
Ltac unfold_run :=
  unfold processDocument, getDocumentPageCount, mbind, M_bind, try_catch,
    throw_if, mret, M_ret, throw, logProcessing, getPublicUrl,
    extractDocumentInfo, fetch_head, upsert, select_page_count, Date_now,
    new_Date_toISOString, record, tick in *.

(** Follows every branch of an exposed run. *)
Ltac run_cases :=
  repeat (simpl in *; simplify_eq;
          match goal with
          | H : context [match ?x with _ => _ end] |- _ =>
              lazymatch x with
              | context [match _ with _ => _ end] => fail
              | _ => destruct x eqn:?
              end
          | |- context [match ?x with _ => _ end] =>
              lazymatch x with
              | context [match _ with _ => _ end] => fail
              | _ => destruct x eqn:?
              end
          end);
  simpl in *; simplify_eq.

Ltac prefix_of l h :=
  lazymatch l with
  | h => constr:(@nil Call)
  | ?c :: ?l' => let r := prefix_of l' h in constr:(c :: r)
  end.

(** Replaces [calls] in [H : issued w w' calls] by the calls read off the
    history of [w']. *)
Ltac known_calls H :=
  unfold issued in H; simpl in H;
  lazymatch type of H with
  | ?l = (?calls ++ ?h)%list =>
      let c := prefix_of l h in
      assert (calls = c) by (apply (app_inv_tail h); exact (eq_sym H));
      subst calls; clear H
  end.

(** Proves [issued w w' calls] for a [calls] still to be found. *)
Ltac solve_issued :=
  lazymatch goal with
  | |- ?h = (?calls ++ ?h)%list => unify calls (@nil Call); reflexivity
  | |- ?c :: ?l = (?calls ++ ?h)%list =>
      let rest := fresh in
      evar (rest : list Call); unify calls (c :: rest); subst rest;
      simpl; f_equal; solve_issued
  end.

(** Discharges a hypothesis that is decided by evaluation. *)
Ltac discharge :=
  first [ reflexivity
        | discriminate
        | by (vm_compute; lia)
        | by (intros ? [= <-] _)
        | by left
        | by right
        | by (intros ?; discriminate) ].

(** ** Numbers: rounding to binary64 *)

Lemma pow2_pos k : (0 < pow2 k)%Z.
Proof. unfold pow2. apply Z.pow_pos_nonneg; lia. Qed.

Lemma pow2_nonpos k : (k ≤ 0)%Z → pow2 k = 1%Z.
Proof. intros Hk. unfold pow2. by rewrite Z.max_l by lia. Qed.

Lemma pow2_nonneg k : (0 ≤ k)%Z → pow2 k = (2 ^ k)%Z.
Proof. intros Hk. unfold pow2. by rewrite Z.max_r by lia. Qed.

Lemma div_nearest_even_bound (n d : Z) :
  (0 < d)%Z → (- d ≤ 2 * (div_nearest_even n d * d - n) ≤ d)%Z.
Proof.
  intros Hd. unfold div_nearest_even.
  pose proof (Z.div_mod n d ltac:(lia)) as Hdiv.
  pose proof (Z.mod_pos_bound n d Hd) as Hmod.
  destruct (Z.compare_spec (2 * (n mod d)) d); [destruct (Z.even _)|..]; nia.
Qed.

Lemma div_nearest_even_1 (n : Z) : div_nearest_even n 1 = n.
Proof. unfold div_nearest_even. by rewrite Z.mod_1_r, Z.div_1_r. Qed.

Lemma log2_floor_le (a b : Z) :
  (0 < a)%Z → (0 < b)%Z →
  (b * pow2 (log2_floor a b) ≤ a * pow2 (- log2_floor a b))%Z.
Proof.
  intros Ha Hb. unfold log2_floor.
  destruct (Z.leb_spec (b * pow2 (Z.log2 a - Z.log2 b))
              (a * pow2 (- (Z.log2 a - Z.log2 b)))) as [Hle|_]; [done|].
  pose proof (Z.log2_spec a Ha) as [Hla _].
  pose proof (Z.log2_spec b Hb) as [_ Hlb].
  pose proof (Z.log2_nonneg a) as Hna.
  pose proof (Z.log2_nonneg b) as Hnb.
  set (la := Z.log2 a) in *. set (lb := Z.log2 b) in *.
  destruct (Z.le_gt_cases 1 (la - lb)) as [Hd|Hd].
  - rewrite (pow2_nonneg (la - lb - 1)) by lia.
    rewrite (pow2_nonpos (- (la - lb - 1))) by lia.
    assert (2 ^ la = 2 ^ Z.succ lb * 2 ^ (la - lb - 1))%Z as Hsplit.
    { rewrite <- Z.pow_add_r by lia. f_equal. lia. }
    pose proof (Z.pow_pos_nonneg 2 (la - lb - 1) ltac:(lia) ltac:(lia)).
    nia.
  - rewrite (pow2_nonpos (la - lb - 1)) by lia.
    rewrite (pow2_nonneg (- (la - lb - 1))) by lia.
    assert (2 ^ Z.succ lb = 2 ^ la * 2 ^ (- (la - lb - 1)))%Z as Hsplit.
    { rewrite <- Z.pow_add_r by lia. f_equal. lia. }
    pose proof (Z.pow_pos_nonneg 2 (- (la - lb - 1)) ltac:(lia) ltac:(lia)).
    nia.
Qed.

(** [ceil_div a b] is the ceiling of [a / b]. *)
Lemma ceil_div_spec (a b : Z) :
  (0 < b)%Z → (a ≤ ceil_div a b * b < a + b)%Z.
Proof.
  intros Hb. unfold ceil_div.
  pose proof (Z.div_mod (- a) b ltac:(lia)) as Hdiv.
  pose proof (Z.mod_pos_bound (- a) b Hb) as Hmod.
  nia.
Qed.

Lemma ceil_div_unique (x d k : Z) :
  (0 < d)%Z → ((k - 1) * d < x ≤ k * d)%Z → ceil_div x d = k.
Proof.
  intros Hd Hk. pose proof (ceil_div_spec x d Hd) as Hc. nia.
Qed.

Lemma Qceiling_fraction (m s : Z) :
  (0 < s)%Z → Qceiling (m # Z.to_pos s) = ceil_div m s.
Proof.
  intros Hs. unfold Qceiling, Qfloor, Qopp, ceil_div. simpl.
  by rewrite Z2Pos.id by done.
Qed.

Lemma Qred_inject_Z (n : Z) : Qred (inject_Z n) = inject_Z n.
Proof.
  unfold Qred, inject_Z.
  pose proof (Z.ggcd_correct_divisors n 1) as Hdiv.
  pose proof (Z.ggcd_gcd n 1) as Hgcd.
  destruct (Z.ggcd n 1) as [g [aa bb]]. simpl in *.
  rewrite Z.gcd_1_r in Hgcd. subst g. destruct Hdiv as [Haa Hbb].
  assert (bb = 1%Z) as -> by lia. assert (aa = n) as -> by lia. done.
Qed.

Lemma Qred_integer (n k : Z) :
  (0 < k)%Z → Qred (n * k # Z.to_pos k) = inject_Z n.
Proof.
  intros Hk. rewrite <- (Qred_inject_Z n).
  apply Qred_complete. unfold Qeq, inject_Z. simpl.
  rewrite Z2Pos.id by done. lia.
Qed.

(** An integer below [2^53] is a binary64 value. *)
Lemma round64_positive_integer (n : Z) :
  (0 < n < 2 ^ 53)%Z → round64_positive n 1 = Num (inject_Z n).
Proof.
  intros [Hpos Hlt]. unfold round64_positive.
  assert (HE : log2_floor n 1 = Z.log2 n).
  { unfold log2_floor. change (Z.log2 1) with 0%Z. rewrite Z.sub_0_r.
    pose proof (Z.log2_nonneg n) as Hn.
    pose proof (Z.log2_spec n Hpos) as [Hl _].
    rewrite (pow2_nonneg _ Hn), (pow2_nonpos (- Z.log2 n)) by lia.
    destruct (Z.leb_spec (1 * 2 ^ Z.log2 n) (n * 1)); [done|lia]. }
  rewrite HE.
  assert (Hlog : (0 ≤ Z.log2 n < 53)%Z).
  { split; [apply Z.log2_nonneg|]. by apply Z.log2_lt_pow2. }
  rewrite Z.max_l by lia.
  set (k := (- (Z.log2 n - 52))%Z).
  rewrite (pow2_nonpos (Z.log2 n - 52)) by lia.
  rewrite (pow2_nonneg k) by (unfold k; lia).
  rewrite Z.mul_1_l, div_nearest_even_1, !Z.mul_1_r.
  assert (Hk : (0 < 2 ^ k)%Z) by (apply Z.pow_pos_nonneg; unfold k; lia).
  destruct (Z.leb_spec (2 ^ 1024 * 2 ^ k) (n * 2 ^ k)) as [Hover|_].
  - assert (2 ^ 53 < 2 ^ 1024)%Z by (apply Z.pow_lt_mono_r; lia). nia.
  - by rewrite Qred_integer.
Qed.

Lemma round64_integer (n : Z) :
  (- 2 ^ 53 < n < 2 ^ 53)%Z → round64 (inject_Z n) = Num (inject_Z n).
Proof.
  intros Hn. unfold round64, inject_Z. simpl.
  destruct n as [|p|p]; [done| |].
  - by apply round64_positive_integer.
  - rewrite round64_positive_integer by lia. done.
Qed.

(** The quotient of an integer below [2^53] by [102400], rounded to
    binary64, has the ceiling of the exact quotient. *)
Lemma round64_positive_ceiling (a : Z) :
  (0 < a < 2 ^ 53)%Z →
  ∃ q, round64_positive a 102400 = Num q ∧ Qceiling q = ceil_div a 102400.
Proof.
  intros [Hpos Hlt]. unfold round64_positive.
  pose proof (log2_floor_le a 102400 Hpos ltac:(lia)) as HE.
  set (E := log2_floor a 102400) in *.
  assert (HE36 : (E ≤ 36)%Z).
  { destruct (Z.le_gt_cases E 36) as [|Hgt]; [done|exfalso].
    rewrite (pow2_nonneg E), (pow2_nonpos (- E)) in HE by lia.
    assert (2 ^ 37 ≤ 2 ^ E)%Z by (apply Z.pow_le_mono_r; lia).
    change (2 ^ 37)%Z with 137438953472%Z in *.
    change (2 ^ 53)%Z with 9007199254740992%Z in *. lia. }
  set (e := Z.max (E - 52) (-1074)).
  assert (He : (-1074 ≤ e ≤ -16)%Z) by (unfold e; lia).
  rewrite (pow2_nonpos e), (pow2_nonneg (- e)) by lia.
  set (s := (2 ^ (- e))%Z).
  assert (Hs : (65536 ≤ s)%Z).
  { change 65536%Z with (2 ^ 16)%Z. apply Z.pow_le_mono_r; lia. }
  rewrite !Z.mul_1_r.
  pose proof (div_nearest_even_bound (a * s) 102400 ltac:(lia)) as Hm.
  set (m := div_nearest_even (a * s) 102400) in *.
  pose proof (ceil_div_spec a 102400 ltac:(lia)) as Hc.
  set (c := ceil_div a 102400) in *.
  assert (Hmc : ((c - 1) * s < m ≤ c * s)%Z) by nia.
  destruct (Z.leb_spec (2 ^ 1024 * s) m) as [Hover|_].
  - exfalso.
    assert (2 ^ 53 < 2 ^ 1024)%Z by (apply Z.pow_lt_mono_r; lia).
    assert (c ≤ a)%Z by nia. nia.
  - eexists. split; [reflexivity|].
    rewrite (Qceiling_comp _ _ (Qred_correct _)).
    rewrite Qceiling_fraction by lia.
    apply ceil_div_unique; lia.
Qed.

(** A rounded value is not [NaN], and has the sign of what is rounded. *)
Lemma div_nearest_even_nonneg (n d : Z) :
  (0 ≤ n)%Z → (0 < d)%Z → (0 ≤ div_nearest_even n d)%Z.
Proof.
  intros Hn Hd. unfold div_nearest_even.
  pose proof (Z.div_pos n d Hn Hd) as Hf.
  destruct (_ ?= _)%Z; [destruct (Z.even _)|..]; lia.
Qed.

Lemma round64_positive_cases (a b : Z) :
  (0 < a)%Z → (0 < b)%Z →
  round64_positive a b = Infinity false
  ∨ ∃ q, round64_positive a b = Num q ∧ (0 <= q)%Q.
Proof.
  intros Ha Hb. unfold round64_positive.
  set (e := Z.max (log2_floor a b - 52) (-1074)).
  destruct (_ <=? _)%Z; [by left|right].
  eexists. split; [reflexivity|].
  rewrite Qred_correct. unfold Qle. simpl. rewrite Z.mul_1_r.
  pose proof (pow2_pos e). pose proof (pow2_pos (- e)).
  pose proof (div_nearest_even_nonneg (a * pow2 (- e)) (b * pow2 e)
                ltac:(nia) ltac:(nia)).
  nia.
Qed.

Lemma round64_cases (q : Q) :
  (∃ s, round64 q = Infinity s) ∨ ∃ q', round64 q = Num q'.
Proof.
  unfold round64. destruct (Qnum q) as [|a|a]; [right; by eexists| |].
  - destruct (round64_positive_cases (Z.pos a) (Z.pos (Qden q))) as [->|(q' & -> & _)];
      [done|done|left|right]; by eexists.
  - destruct (round64_positive_cases (Z.pos a) (Z.pos (Qden q))) as [->|(q' & -> & _)];
      [done|done|left|right]; by eexists.
Qed.

(** [round64] and the binary64 arithmetic of [SpecFloat] agree on the
    samples: quotients of binary64 values, and integers up to the
    overflow threshold. *)
Example round64_agrees_on_quotients :
  List.map (λ '(a, b), round64 (a # Z.to_pos b)) sample_quotients
  = List.map (λ '(a, b), of_spec_float
                           (SFdiv 53 1024 (binary64_of_Z a) (binary64_of_Z b)))
      sample_quotients.
Proof. vm_compute. reflexivity. Qed.

Example round64_agrees_on_integers :
  List.map (λ n, round64 (inject_Z n)) sample_integers
  = List.map (λ n, of_spec_float (binary64_of_Z n)) sample_integers.
Proof. vm_compute. reflexivity. Qed.

(** *** The estimate of lines 26-27 *)

Lemma mul_page_size : mul (Num 100) (Num 1024) = Num (inject_Z 102400).
Proof. vm_compute. reflexivity. Qed.

Lemma div_page_size (n : Z) :
  div (Num (inject_Z n)) (Num (inject_Z 102400)) = round64 (n # 102400).
Proof.
  unfold div. change (Qeq_bool (inject_Z 102400) 0) with false.
  unfold Qdiv, Qinv, Qmult, inject_Z. simpl. by rewrite Z.mul_1_r.
Qed.

Lemma Qle_bool_1_integer (c : Z) : Qle_bool 1 (inject_Z c) = (1 <=? c)%Z.
Proof. unfold Qle_bool, inject_Z. simpl. by rewrite !Z.mul_1_r. Qed.

(** [Math.max(1, Math.ceil(x))] is [NaN] (for [NaN]), [Infinity] (for
    [Infinity]) or a positive integer. *)
Lemma max_ceil_cases (x : number) :
  (x = NaN ∧ Math_max (Num 1) (Math_ceil x) = NaN)
  ∨ (x = Infinity false ∧ Math_max (Num 1) (Math_ceil x) = Infinity false)
  ∨ ∃ k, (1 ≤ k)%Z ∧ Math_max (Num 1) (Math_ceil x) = Num (inject_Z k).
Proof.
  destruct x as [|[|]|q]; simpl; [by left|..].
  - right. right. by exists 1%Z.
  - right. by left.
  - right. right. rewrite Qle_bool_1_integer.
    destruct (Z.leb_spec 1 (Qceiling q)); [by eexists|by exists 1%Z].
Qed.

(** On a content length below [2^53] the estimate of the code is the one
    of the specification. *)
Lemma estimate_of_integer (n : Z) :
  (n < 2 ^ 53)%Z →
  Math_max (Num 1) (Math_ceil (div (Num (inject_Z n)) (mul (Num 100) (Num 1024))))
  = Num (inject_Z (spec_estimated_pages n)).
Proof.
  intros Hn. rewrite mul_page_size, div_page_size.
  unfold spec_estimated_pages.
  pose proof (ceil_div_spec n 102400 ltac:(lia)) as Hc.
  unfold round64. simpl. destruct n as [|a|a].
  - reflexivity.
  - destruct (round64_positive_ceiling (Z.pos a) ltac:(lia)) as (q & -> & Hq).
    simpl. rewrite Hq, Qle_bool_1_integer.
    destruct (Z.leb_spec 1 (ceil_div (Z.pos a) 102400)); [|lia].
    by rewrite Z.max_r by lia.
  - rewrite Z.max_l by lia.
    destruct (round64_positive_cases (Z.pos a) 102400) as [->|(q & -> & Hq)];
      [done|done|done|].
    simpl. rewrite Qle_bool_1_integer.
    assert (Qceiling (- q) ≤ 0)%Z.
    { rewrite <- (Qceiling_Z 0). apply Qceiling_resp_le.
      change (inject_Z 0) with (- 0)%Q. by apply Qopp_le_compat. }
    destruct (Z.leb_spec 1 (Qceiling (- q))); [lia|done].
Qed.
(** ** Rows and the table *)

Lemma set_column_lookup_ne (m : Row) (k k' : string) (v : Value) :
  k' ≠ k → set_column m (k', v) !! k = m !! k.
Proof.
  intros Hne. unfold set_column. simpl.
  destruct v as [| | |[| |]]; try done; by rewrite lookup_insert_ne.
Qed.

Lemma set_column_lookup_eq (m : Row) (k : string) (v : Value) :
  set_column m (k, v) !! k =
    match v with
    | VUndefined => m !! k
    | VNum NaN | VNum (Infinity _) => Some VNull
    | _ => Some v
    end.
Proof.
  unfold set_column. simpl.
  destruct v as [| | |[| |]]; try done; by rewrite lookup_insert_eq.
Qed.

(** Looks a column up in [to_row] of an object literal. *)
Ltac row_lookup :=
  unfold to_row; cbn [foldl];
  repeat (rewrite set_column_lookup_ne
            by (let Hk := fresh in intros Hk; discriminate Hk));
  try rewrite set_column_lookup_eq; try rewrite lookup_empty; try reflexivity.

Lemma existsb_false_filter {A} (p : A → bool) (l : list A) :
  List.existsb p l = false → List.filter p l = [].
Proof.
  induction l as [|x l IH]; simpl; [done|].
  intros [-> Hl]%orb_false_iff. auto.
Qed.

Lemma existsb_true_filter {A} (p : A → bool) (l : list A) :
  List.existsb p l = true → List.filter p l ≠ [].
Proof.
  intros (x & Hin & Hx)%List.existsb_exists Hnil.
  assert (Hx' : List.In x (List.filter p l)) by (by apply List.filter_In).
  rewrite Hnil in Hx'. destruct Hx'.
Qed.

Section Upsert.

Context (d : string) (new : Row) (Hid : new !! "document_id" = Some (VStr d)).

Lemma conflicts_document_id (r : Row) :
  conflicts "document_id" new r = eq_column "document_id" (VStr d) r.
Proof using Hid. unfold conflicts, eq_column. by rewrite Hid. Qed.

Lemma new_row_matches : eq_column "document_id" (VStr d) new = true.
Proof using Hid. unfold eq_column. rewrite Hid. simpl. apply String.eqb_refl. Qed.

Lemma merged_row_matches (old : Row) :
  eq_column "document_id" (VStr d) (new ∪ old) = true.
Proof using Hid.
  unfold eq_column. erewrite lookup_union_Some_l by exact Hid. simpl.
  apply String.eqb_refl.
Qed.

Lemma db_upsert_unfold (tbl : Table) :
  db_upsert new "document_id" false tbl =
    if List.existsb (eq_column "document_id" (VStr d)) tbl
    then List.map (λ old, if eq_column "document_id" (VStr d) old
                          then new ∪ old else old) tbl
    else (tbl ++ [new])%list.
Proof using Hid.
  unfold db_upsert.
  assert (List.existsb (conflicts "document_id" new) tbl
          = List.existsb (eq_column "document_id" (VStr d)) tbl) as ->.
  { induction tbl as [|r tbl IH]; simpl; [done|]. by rewrite conflicts_document_id, IH. }
  destruct (List.existsb _ tbl); [|done].
  apply List.map_ext. intros r. by rewrite conflicts_document_id.
Qed.

Lemma filter_merge (tbl : Table) :
  List.filter (eq_column "document_id" (VStr d))
    (List.map (λ old, if eq_column "document_id" (VStr d) old
                      then new ∪ old else old) tbl)
  = List.map (λ old, new ∪ old) (List.filter (eq_column "document_id" (VStr d)) tbl).
Proof using Hid.
  induction tbl as [|r tbl IH]; simpl; [done|].
  destruct (eq_column "document_id" (VStr d) r) eqn:Hr; simpl.
  - by rewrite merged_row_matches, IH.
  - by rewrite Hr, IH.
Qed.

(** The rows for [d] after an upsert for [d]: the new row when there was
    none, the old rows merged with the new one otherwise. *)
Lemma rows_for_upsert (tbl : Table) :
  rows_for d (db_upsert new "document_id" false tbl) =
    match rows_for d tbl with
    | [] => [new]
    | rs => List.map (λ old, new ∪ old) rs
    end.
Proof using Hid.
  rewrite db_upsert_unfold. unfold rows_for.
  destruct (List.existsb _ tbl) eqn:He.
  - rewrite filter_merge.
    apply existsb_true_filter in He. by destruct (List.filter _ tbl).
  - rewrite List.filter_app, (existsb_false_filter _ _ He). simpl.
    by rewrite new_row_matches.
Qed.

(** With the uniqueness constraint, an upsert leaves exactly one row for
    its key, and that row has every column that was sent. *)
Lemma upsert_single (tbl : Table) :
  (length (rows_for d tbl) ≤ 1)%nat →
  ∃ row, rows_for d (db_upsert new "document_id" false tbl) = [row]
         ∧ ∀ k v, new !! k = Some v → row !! k = Some v.
Proof using Hid.
  intros Hle. rewrite rows_for_upsert.
  destruct (rows_for d tbl) as [|old [|]]; simpl in *; [| |lia].
  - eauto.
  - exists (new ∪ old). split; [done|]. intros k v Hk. by apply lookup_union_Some_l.
Qed.

(** An upsert on an existing key inserts nothing. *)
Lemma upsert_existing_length (tbl : Table) :
  rows_for d tbl ≠ [] →
  length (db_upsert new "document_id" false tbl) = length tbl.
Proof using Hid.
  intros Hne. rewrite db_upsert_unfold.
  destruct (List.existsb _ tbl) eqn:He.
  - apply List.length_map.
  - destruct Hne. by apply existsb_false_filter.
Qed.

End Upsert.


Lemma upsert_keeps_unique (d : string) (new : Row) (tbl : Table) :
  new !! "document_id" = Some (VStr d) →
  (length (rows_for d tbl) ≤ 1)%nat →
  (length (rows_for d (db_upsert new "document_id" false tbl)) ≤ 1)%nat.
Proof.
  intros Hid Hle. destruct (upsert_single d _ Hid tbl Hle) as (row & -> & _). done.
Qed.


(** ** [parseInt] on sample headers *)

Example parseInt_250000 : parseInt "250000" = Num (inject_Z 250000).
Proof. vm_compute. reflexivity. Qed.

Example parseInt_hex : parseInt " 0x1F" = Num (inject_Z 31).
Proof. vm_compute. reflexivity. Qed.

Example parseInt_junk : parseInt "abc" = NaN.
Proof. reflexivity. Qed.

Example parseInt_prefix : parseInt "-12px" = Num (inject_Z (-12)).
Proof. vm_compute. reflexivity. Qed.

(** Above [2^53] the integer read is rounded, and a numeral that is
    too large for a binary64 value is an infinity. *)
Example parseInt_rounds :
  parseInt "112589990684262401" = Num (inject_Z 112589990684262400).
Proof. vm_compute. reflexivity. Qed.

Example parseInt_overflows :
  parseInt ("1" ++ String.concat "" (List.repeat "0000000000" 31)) = Infinity false.
Proof. vm_compute. reflexivity. Qed.

(** The no-break space is white space. *)
Example parseInt_no_break_space :
  parseInt (String (ascii_of_nat 160) "3") = Num (inject_Z 3).
Proof. vm_compute. reflexivity. Qed.

(** ** [processDocument]: the success path *)

Lemma append_empty_r (s : string) : s ++ "" = s.
Proof. induction s as [|c s IH]; [done|]. exact (f_equal (String c) IH). Qed.

Lemma contains_suffix (prefix s : string) : contains (prefix ++ s) s.
Proof. exists prefix, "". by rewrite append_empty_r. Qed.

Lemma date_check_passes rt info :
  date_parses rt info →
  truthy (of_string (invoiceDate info)) &&
    negb (truthy (if truthy (of_string (invoiceDate info))
                  then parseDate rt (default "" (invoiceDate info))
                  else VNull)) = false.
Proof.
  intros Hdate. destruct (invoiceDate info) as [[|c d]|] eqn:Hd; simpl; try done.
  by rewrite (Hdate (String c d)).
Qed.

(** C1.  When the document identifier is not empty, every collaborator
    call of the run succeeds (both log writes, the URL resolution, the
    extraction, the upsert) and the extracted date, when there is one,
    parses, [processDocument] returns [{success: true}], and afterwards
    there is exactly one [document_info] row for the document: its status
    is ['completed'] and it carries the extracted vendor name, invoice
    number, normalised date and total amount. *)
Theorem processDocument_success rt env documentId fileUrl w url info :
  documentId ≠ "" →
  unique_record documentId w →
  log_reply env (tick w) = Returns tt →
  url_reply env (1 + tick w) = Returns {| publicUrl := url; urlError := None |} →
  extract_reply env (2 + tick w) = Returns (Some info) →
  date_parses rt info →
  upsert_reply env (3 + tick w) = Returns None →
  log_reply env (4 + tick w) = Returns tt →
  ∃ w' row,
    processDocument rt env documentId fileUrl w = (Returns succeeded, w')
    ∧ records documentId w' = [row]
    ∧ row !! "processing_status" = Some (VStr "completed")
    ∧ (∀ v, vendorName info = Some v → row !! "vendor_name" = Some (VStr v))
    ∧ (∀ v, invoiceNumber info = Some v → row !! "invoice_number" = Some (VStr v))
    ∧ (∀ d, invoiceDate info = Some d → d ≠ "" →
            row !! "invoice_date" = Some (parseDate rt d))
    ∧ (∀ q, totalAmount info = Some (Num q) →
            row !! "total_amount" = Some (VNum (Num q))).
Proof.
  intros Hd Huniq Hlog1 Hurl Hext Hdate Hup Hlog2.
  unfold records, unique_record, records in *. unfold_run. simpl in *.
  destruct documentId as [|c documentId]; [done|]. simpl.
  rewrite Hlog1, Hurl. simpl. rewrite Hext.
  rewrite (date_check_passes _ _ Hdate). simpl.
  rewrite Hup. simpl. rewrite Hlog2.
  match goal with |- context [db_upsert ?new _ _ _] => set (sent := new) end.
  assert (Hid : sent !! "document_id" = Some (VStr (String c documentId)))
    by (subst sent; row_lookup).
  destruct (upsert_single _ sent Hid (document_info w) Huniq) as (row & Hrow & Hcols).
  eexists _, row. split; [reflexivity|]. split; [exact Hrow|].
  repeat split.
  - apply Hcols. subst sent. row_lookup.
  - intros v Hv. apply Hcols. subst sent. rewrite Hv. row_lookup.
  - intros v Hv. apply Hcols. subst sent. rewrite Hv. row_lookup.
  - intros d Hv Hne. apply Hcols. subst sent. rewrite Hv.
    destruct d as [|a d]; [done|]. simpl.
    specialize (Hdate _ Hv Hne). row_lookup.
    unfold parseDate in *.
    by destruct (utils_date_parseDate rt (String a d)) as [[|]|].
  - intros q Hv. apply Hcols. subst sent. rewrite Hv. row_lookup.
Qed.

Lemma processDocument_success_witness :
  ∃ w' row,
    processDocument sample_runtime (reliable (Some invoice_42) None) "doc-1" "a.pdf"
      empty_world = (Returns succeeded, w')
    ∧ records "doc-1" w' = [row]
    ∧ row !! "processing_status" = Some (VStr "completed")
    ∧ (∀ v, vendorName invoice_42 = Some v → row !! "vendor_name" = Some (VStr v))
    ∧ (∀ v, invoiceNumber invoice_42 = Some v → row !! "invoice_number" = Some (VStr v))
    ∧ (∀ d, invoiceDate invoice_42 = Some d → d ≠ "" →
            row !! "invoice_date" = Some (parseDate sample_runtime d))
    ∧ (∀ q, totalAmount invoice_42 = Some (Num q) →
            row !! "total_amount" = Some (VNum (Num q))).
Proof.
  apply (processDocument_success sample_runtime (reliable (Some invoice_42) None)
           "doc-1" "a.pdf" empty_world sample_url invoice_42);
    try reflexivity.
  - discriminate.
  - vm_compute. lia.
  - intros d [= <-] _. reflexivity.
Defined.

(** ** [processDocument]: failures *)

(** C2.  An exception does escape [processDocument]: when the log rejects
    both the initial write and the write of the [catch] block, the second
    rejection is thrown to the caller. *)
Theorem processDocument_exception_escapes :
  (processDocument sample_runtime (log_down (Some invoice_42)) "doc-1" "a.pdf"
     empty_world).1
  = Throws {| message := "log unavailable" |}.
Proof. reflexivity. Qed.

(** The same in general: a rejection of the log write of the [catch] block
    is not caught. *)
Lemma handler_log_rejection_escapes rt env documentId fileUrl w e0 e1 :
  documentId ≠ "" →
  log_reply env (tick w) = Throws e0 →
  log_reply env (1 + tick w) = Throws e1 →
  (processDocument rt env documentId fileUrl w).1 = Throws e1.
Proof.
  intros Hd H0 H1. unfold_run. simpl in *.
  destruct documentId; [done|]. simpl. rewrite H0. simpl. by rewrite H1.
Qed.

(** Every exception that escapes was thrown by a call of the [catch]
    block: a log write or an upsert. *)
Lemma escaping_exception_origin rt env documentId fileUrl w e :
  (processDocument rt env documentId fileUrl w).1 = Throws e →
  ∃ t, log_reply env t = Throws e ∨ upsert_reply env t = Throws e.
Proof.
  intros Hrun. unfold_run. run_cases; eauto.
Qed.

(** Whatever the storage and the extraction do, a run returns a result as
    long as no write to the log and no upsert rejects. *)
Lemma processDocument_returns rt env documentId fileUrl w :
  (∀ t e, log_reply env t ≠ Throws e) →
  (∀ t e, upsert_reply env t ≠ Throws e) →
  ∃ r, (processDocument rt env documentId fileUrl w).1 = Returns r.
Proof.
  intros Hlog Hup.
  destruct (processDocument rt env documentId fileUrl w).1 as [r|e] eqn:Hrun;
    [by exists r|].
  apply escaping_exception_origin in Hrun as [t [Ht|Ht]].
  - by destruct (Hlog t e).
  - by destruct (Hup t e).
Qed.




(** When the extraction returns a record whose [invoiceDate] is not
    empty and is not a date for [parseDate], the error
    ['Invalid date format: '] followed by that text is raised and handed to
    the [catch] block: it is the message of the 'error' log entry, the only
    upsert of the run is the error upsert, and no row with status
    ['completed'] is written.  The run returns the failure with that
    message when the write to the log of the [catch] block returns and its
    upsert does not reject; when one of the two rejects, that rejection is
    thrown to the caller. *)
Lemma unparseable_date_fails rt env documentId fileUrl w url info s :
  documentId ≠ "" →
  log_reply env (tick w) = Returns tt →
  url_reply env (1 + tick w) = Returns {| publicUrl := url; urlError := None |} →
  extract_reply env (2 + tick w) = Returns (Some info) →
  invoiceDate info = Some s → s ≠ "" → truthy (parseDate rt s) = false →
  ∃ msg calls,
    msg = "Invalid date format: " ++ s
    ∧ contains msg s
    ∧ issued w (processDocument rt env documentId fileUrl w).2 calls
    ∧ CallLog (failure_entry documentId msg (clock env (3 + tick w) - clock env (tick w)))
        ∈ calls
    ∧ (∀ table values onConflict ignoreDuplicates,
         CallUpsert table values onConflict ignoreDuplicates ∈ calls →
         property "processing_status" values = Some (VStr "error"))
    ∧ (∀ row, row ∈ records documentId (processDocument rt env documentId fileUrl w).2 →
              row !! "processing_status" = Some (VStr "completed") →
              row ∈ records documentId w)
    ∧ (log_reply env (3 + tick w) = Returns tt →
       (∀ e, upsert_reply env (4 + tick w) ≠ Throws e) →
       (processDocument rt env documentId fileUrl w).1 = Returns (failed_with msg))
    ∧ (∀ e, log_reply env (3 + tick w) = Throws e →
            (processDocument rt env documentId fileUrl w).1 = Throws e)
    ∧ (∀ e, log_reply env (3 + tick w) = Returns tt →
            upsert_reply env (4 + tick w) = Throws e →
            (processDocument rt env documentId fileUrl w).1 = Throws e).
Proof.
  intros Hd Hlog1 Hurl Hext Hs Hne Hbad.
  exists ("Invalid date format: " ++ s).
  unfold issued, records, failure_entry. unfold_run. simpl in *.
  destruct documentId as [|c documentId]; [done|]. simpl.
  rewrite Hlog1, Hurl. simpl. rewrite Hext, Hs.
  destruct s as [|a s]; [done|]. simpl. rewrite Hbad. simpl.
  destruct (log_reply env (S (S (S (length (history w)))))) as [[]|e] eqn:Hlog2;
    [destruct (upsert_reply env (S (S (S (S (length (history w)))))))
       as [[e|]|e] eqn:Hup|];
    simpl.
  all: eexists; split; [reflexivity|];
       split; [apply (contains_suffix "Invalid date format: ")|];
       split; [solve_issued|].
  all: split; [set_solver|].
  all: split;
       [intros ???? Hin;
        repeat (apply elem_of_cons in Hin as [Hin|Hin]; [by simplify_eq|]);
        by apply elem_of_nil in Hin|].
  all: split; [|split; [intros Hlog Hrej; first [done | by destruct (Hrej e)]|]].
  all: try (split; [intros e' He'|intros e' Hlog He']; congruence).
  all: try (intros row Hrow _; exact Hrow).
  intros row Hrow Hst.
  match type of Hrow with context [db_upsert ?new _ _ _] => set (sent := new) in * end.
  assert (Hid : sent !! "document_id" = Some (VStr (String c documentId)))
    by (subst sent; row_lookup).
  assert (Hst' : sent !! "processing_status" = Some (VStr "error"))
    by (subst sent; row_lookup).
  rewrite (rows_for_upsert _ _ Hid) in Hrow.
  destruct (rows_for (String c documentId) (document_info w)) as [|old olds] eqn:Hold.
  - apply list_elem_of_singleton in Hrow as ->. congruence.
  - apply list_elem_of_In, List.in_map_iff in Hrow as (old' & <- & _).
    rewrite (lookup_union_Some_l _ _ _ _ Hst') in Hst. congruence.
Qed.

(** C5.  A run in which the extracted date is not a date does not always
    return a failure result: when the write to the log of the [catch]
    block (the fourth call) rejects, that rejection is thrown to the
    caller, and the message with the offending date is lost. *)
Theorem unparseable_date_run_throws :
  extract_reply (log_fails_at 3 (Some invoice_bad_date)) 2 = Returns (Some invoice_bad_date)
  ∧ invoiceDate invoice_bad_date = Some "not-a-date"
  ∧ truthy (parseDate sample_runtime "not-a-date") = false
  ∧ (processDocument sample_runtime (log_fails_at 3 (Some invoice_bad_date))
       "doc-1" "a.pdf" empty_world).1
    = Throws {| message := "log unavailable" |}
  ∧ ∀ r, (processDocument sample_runtime (log_fails_at 3 (Some invoice_bad_date))
            "doc-1" "a.pdf" empty_world).1 ≠ Returns r.
Proof. repeat split; try reflexivity. intros r. discriminate. Qed.

(** The example of the specification. *)
Example not_a_date_fails :
  bad_date_run.1 = Returns (failed_with "Invalid date format: not-a-date")
  ∧ List.map (λ r : Row, r !! "processing_status") (records "doc-1" bad_date_run.2)
    = [Some (VStr "error")].
Proof. split; vm_compute; reflexivity. Qed.

(** C6.  A rejection of the initial write to the log is not swallowed: it
    is caught like any other error, and (when the calls of the [catch]
    block return) the run fails with the message of that rejection. *)
Theorem logging_failure_propagates rt env documentId fileUrl w e :
  documentId ≠ "" →
  log_reply env (tick w) = Throws e →
  log_reply env (1 + tick w) = Returns tt →
  (∀ e', upsert_reply env (2 + tick w) ≠ Throws e') →
  (processDocument rt env documentId fileUrl w).1
  = Returns (failed_with (str_or (message e) "Failed to process document")).
Proof.
  intros Hd Hlog1 Hlog2 Hup. unfold_run. simpl in *.
  destruct documentId as [|c documentId]; [done|]. simpl.
  rewrite Hlog1. simpl. rewrite Hlog2.
  destruct (upsert_reply env (S (S (length (history w))))) as [[e'|]|e'] eqn:Hreply;
    [done|done|by destruct (Hup e')].
Qed.

Lemma logging_failure_propagates_witness :
  (processDocument sample_runtime (first_log_fails (Some invoice_42)) "doc-1" "a.pdf"
     empty_world).1
  = Returns (failed_with "log unavailable").
Proof.
  apply (logging_failure_propagates sample_runtime (first_log_fails (Some invoice_42))
           "doc-1" "a.pdf" empty_world {| message := "log unavailable" |}).
  - discriminate.
  - reflexivity.
  - reflexivity.
  - intros e'. discriminate.
Defined.

(** C6, as stated, fails: only the first write to the log rejects, and
    the run fails. *)
Lemma logging_failure_fails_run :
  log_reply (first_log_fails (Some invoice_42)) 0 = Throws {| message := "log unavailable" |}
  ∧ (processDocument sample_runtime (reliable (Some invoice_42) None) "doc-1" "a.pdf"
       empty_world).1 = Returns succeeded
  ∧ (processDocument sample_runtime (first_log_fails (Some invoice_42)) "doc-1" "a.pdf"
       empty_world).1 = Returns (failed_with "log unavailable").
Proof. repeat split; reflexivity. Qed.

(** The same holds for the final write: the row is already saved as
    ['completed'] when the rejection is caught. *)
Lemma completion_log_failure_propagates rt env documentId fileUrl w url info e :
  documentId ≠ "" →
  log_reply env (tick w) = Returns tt →
  url_reply env (1 + tick w) = Returns {| publicUrl := url; urlError := None |} →
  extract_reply env (2 + tick w) = Returns (Some info) →
  date_parses rt info →
  upsert_reply env (3 + tick w) = Returns None →
  log_reply env (4 + tick w) = Throws e →
  log_reply env (5 + tick w) = Returns tt →
  (∀ e', upsert_reply env (6 + tick w) ≠ Throws e') →
  (processDocument rt env documentId fileUrl w).1
  = Returns (failed_with (str_or (message e) "Failed to process document")).
Proof.
  intros Hd Hlog1 Hurl Hext Hdate Hup Hlog2 Hlog3 Hup2. unfold_run. simpl in *.
  destruct documentId as [|c documentId]; [done|]. simpl.
  rewrite Hlog1, Hurl. simpl. rewrite Hext.
  rewrite (date_check_passes _ _ Hdate). simpl.
  rewrite Hup. simpl. rewrite Hlog2. simpl. rewrite Hlog3.
  destruct (upsert_reply env (S (S (S (S (S (S _))))))) as [[e'|]|e'] eqn:Hreply;
    [reflexivity|reflexivity|by destruct (Hup2 e')].
Qed.

(** ** [processDocument]: what holds of every run *)


(** A successful run has applied exactly one upsert, with status
    ['completed'], issued as its fourth call. *)
Lemma success_inv rt env documentId fileUrl w r w' :
  processDocument rt env documentId fileUrl w = (Returns r, w') →
  success r = true →
  ∃ values c1 c2 c3 c5,
    issued w w' [c5; CallUpsert "document_info" values "document_id" false; c3; c2; c1]
    ∧ document_info w' = db_upsert (to_row values) "document_id" false (document_info w)
    ∧ to_row values !! "document_id" = Some (VStr documentId)
    ∧ to_row values !! "processing_status" = Some (VStr "completed")
    ∧ to_row values !! "processed_at"
      = Some (VStr (toISOString rt (clock env (3 + tick w))))
    ∧ values.*1 = completed_columns.
Proof.
  intros Hrun Hs. unfold issued. unfold_run. run_cases.
  all: eexists _, _, _, _, _; split; [reflexivity|]; split; [reflexivity|].
  all: repeat split; row_lookup.
Qed.

(** A property that is not written in an object literal is not sent. *)
Lemma to_row_lookup_None (o : Object) (k : string) :
  k ∉ o.*1 → to_row o !! k = None.
Proof.
  unfold to_row. generalize (∅ : Row) (lookup_empty (M := gmap string) (A := Value) k).
  induction o as [|[k' v] o IH]; intros m Hm Hk; simpl in *; [done|].
  apply not_elem_of_cons in Hk as [Hne Hk].
  apply IH; [|done]. by rewrite set_column_lookup_ne.
Qed.




(** A run can fail and leave the status ['completed']: the row is saved,
    the write of the 'completed' log entry rejects, and the platform
    answers the upsert of the [catch] block with an error. *)
Example failed_run_leaves_completed :
  (processDocument sample_runtime (completion_unlogged (Some invoice_42)) "doc-1" "a.pdf"
     empty_world).1
    = Returns (failed_with "log unavailable")
  ∧ List.map (λ r : Row, r !! "processing_status")
      (records "doc-1"
         (processDocument sample_runtime (completion_unlogged (Some invoice_42)) "doc-1"
            "a.pdf" empty_world).2)
    = [Some (VStr "completed")].
Proof. split; vm_compute; reflexivity. Qed.

(** C7.  After two successful runs in sequence for the same document
    there is exactly one row for the document: the second run inserted
    nothing.  Its upsert sends the nine columns of the extracted fields,
    and every column it sent has, in that row, the value the second run
    sent; a column it did not send has the value it had after the first
    run, and a column that is not among the nine (the error message, the
    page count) has the value it had before the two runs. *)
Theorem processDocument_twice rt env documentId fileUrl w r1 w1 r2 w2 :
  unique_record documentId w →
  processDocument rt env documentId fileUrl w = (Returns r1, w1) →
  success r1 = true →
  processDocument rt env documentId fileUrl w1 = (Returns r2, w2) →
  success r2 = true →
  ∃ row1 row2 values calls,
    records documentId w1 = [row1]
    ∧ records documentId w2 = [row2]
    ∧ length (document_info w2) = length (document_info w1)
    ∧ issued w1 w2 calls
    ∧ CallUpsert "document_info" values "document_id" false ∈ calls
    ∧ values.*1 = completed_columns
    ∧ (∀ k v, to_row values !! k = Some v → row2 !! k = Some v)
    ∧ row2 !! "processing_status" = Some (VStr "completed")
    ∧ row2 !! "processed_at" = Some (VStr (toISOString rt (clock env (3 + tick w1))))
    ∧ (∀ k, to_row values !! k = None → row2 !! k = row1 !! k)
    ∧ (∀ k old, k ∉ completed_columns → records documentId w = [old] →
                row2 !! k = old !! k).
Proof.
  intros Huniq Hrun1 Hs1 Hrun2 Hs2. unfold unique_record, records in *.
  destruct (success_inv _ _ _ _ _ _ _ Hrun1 Hs1)
    as (values1 & ? & ? & ? & ? & _ & Htbl1 & Hid1 & _ & _ & Hcols1).
  destruct (success_inv _ _ _ _ _ _ _ Hrun2 Hs2)
    as (values2 & c1 & c2 & c3 & c5 & Hcalls & Htbl2 & Hid2 & Hst2 & Hat2 & Hcols2).
  destruct (upsert_single _ _ Hid1 (document_info w) Huniq) as (row1 & Hrow1 & _).
  assert (Hfirst : ∀ old, rows_for documentId (document_info w) = [old] →
                          row1 = to_row values1 ∪ old).
  { intros old Hold. pose proof Hrow1 as Hmerged.
    rewrite (rows_for_upsert _ _ Hid1), Hold in Hmerged. simpl in Hmerged.
    by simplify_eq. }
  rewrite <- Htbl1 in Hrow1.
  assert (Hrow2 : rows_for documentId (document_info w2) = [to_row values2 ∪ row1]).
  { rewrite Htbl2, (rows_for_upsert _ _ Hid2), Hrow1. done. }
  eexists row1, (to_row values2 ∪ row1), values2, _.
  split; [exact Hrow1|]. split; [exact Hrow2|]. split.
  { rewrite Htbl2. apply (upsert_existing_length _ _ Hid2). by rewrite Hrow1. }
  split; [exact Hcalls|]. split.
  { apply list_elem_of_further, list_elem_of_here. }
  split; [exact Hcols2|].
  split; [|split; [|split; [|split]]].
  - intros k v Hk. by apply lookup_union_Some_l.
  - by apply lookup_union_Some_l.
  - by apply lookup_union_Some_l.
  - intros k Hk. by apply lookup_union_r.
  - intros k old Hk Hold. rewrite (Hfirst old Hold).
    rewrite !lookup_union_r; [done| |]; apply to_row_lookup_None; congruence.
Qed.

Lemma processDocument_twice_witness :
  ∃ row1 row2 values calls,
    records "doc-1" retried_once = [row1]
    ∧ records "doc-1" retried_twice = [row2]
    ∧ length (document_info retried_twice) = length (document_info retried_once)
    ∧ issued retried_once retried_twice calls
    ∧ CallUpsert "document_info" values "document_id" false ∈ calls
    ∧ values.*1 = completed_columns
    ∧ (∀ k v, to_row values !! k = Some v → row2 !! k = Some v)
    ∧ row2 !! "processing_status" = Some (VStr "completed")
    ∧ row2 !! "processed_at"
      = Some (VStr (toISOString sample_runtime
                      (clock (reliable (Some invoice_42) None) (3 + tick retried_once))))
    ∧ (∀ k, to_row values !! k = None → row2 !! k = row1 !! k)
    ∧ (∀ k old, k ∉ completed_columns → records "doc-1" two_documents = [old] →
                row2 !! k = old !! k).
Proof.
  apply (processDocument_twice sample_runtime (reliable (Some invoice_42) None)
           "doc-1" "a.pdf" two_documents succeeded retried_once
           succeeded retried_twice).
  - vm_compute. lia.
  - reflexivity.
  - reflexivity.
  - reflexivity.
  - reflexivity.
Defined.

(** C7, as stated, fails: two runs succeed on a row that an earlier
    failure and an earlier estimate have written, and the second upsert
    does not overwrite all fields: the error message and the page count
    are still in the row. *)
Lemma second_run_keeps_columns :
  (processDocument sample_runtime (reliable (Some invoice_42) None) "doc-1" "a.pdf"
     two_documents).1 = Returns succeeded
  ∧ (processDocument sample_runtime (reliable (Some invoice_42) None) "doc-1" "a.pdf"
       retried_once).1 = Returns succeeded
  ∧ List.map (λ r : Row, (r !! "processing_status", r !! "error_message", r !! "page_count"))
      (records "doc-1" retried_twice)
    = [(Some (VStr "completed"),
        Some (VStr "Failed to extract document information"),
        Some (VNum (Num 7)))].
Proof. repeat split; vm_compute; reflexivity. Qed.

(** The second run replaced the timestamp written by the first. *)
Example second_run_overwrites :
  (List.map (λ r : Row, r !! "processed_at") (records "doc-1" after_first_run),
   List.map (λ r : Row, r !! "processed_at") (records "doc-1" after_second_run))
  = ([Some (VStr "T+3")], [Some (VStr "T+8")]).
Proof. vm_compute. reflexivity. Qed.

(** C8.  Every upsert of a run that carries the status ['error'] sends
    exactly four properties: the document identifier, the status
    ['error'], the error message and the update timestamp, and none of the
    extracted fields; and a run that returns a failure has issued that
    upsert as its last call. *)
Theorem error_upsert_values rt env documentId fileUrl w calls :
  issued w (processDocument rt env documentId fileUrl w).2 calls →
  (∀ table values onConflict ignoreDuplicates,
     CallUpsert table values onConflict ignoreDuplicates ∈ calls →
     property "processing_status" values = Some (VStr "error") →
     ∃ msg updated_at,
       values = error_values documentId msg updated_at
       ∧ values.*1 = ["document_id"; "processing_status"; "error_message"; "updated_at"]
       ∧ property "vendor_name" values = None
       ∧ property "invoice_number" values = None
       ∧ property "invoice_date" values = None
       ∧ property "total_amount" values = None)
  ∧ (∀ r, (processDocument rt env documentId fileUrl w).1 = Returns r →
          success r = false →
          ∃ msg updated_at earlier,
            calls = CallUpsert "document_info" (error_values documentId msg updated_at)
                      "document_id" false :: earlier).
Proof.
  intros Hcalls. unfold_run. run_cases.
  all: known_calls Hcalls; split.
  all: try (intros r [= <-] Hs; simpl in Hs; try discriminate Hs;
            unfold error_values; eexists _, _, _; reflexivity).
  all: try (intros ???? Hin Hst;
       repeat (apply elem_of_cons in Hin as [Hin|Hin];
               [simplify_eq; try (vm_compute in Hst; discriminate Hst);
                try (unfold error_values; eexists _, _; repeat split; reflexivity)|]);
       by apply elem_of_nil in Hin).
Qed.

Lemma error_upsert_values_witness :
  (∀ table values onConflict ignoreDuplicates,
     CallUpsert table values onConflict ignoreDuplicates
       ∈ [CallUpsert "document_info"
            (error_values "doc-1" "Failed to extract document information" "T+4")
            "document_id" false;
          CallLog (failure_entry "doc-1" "Failed to extract document information" 3);
          CallExtract sample_url;
          CallGetPublicUrl "documents" "a.pdf";
          CallLog (start_entry "doc-1" "a.pdf")] →
     property "processing_status" values = Some (VStr "error") →
     ∃ msg updated_at,
       values = error_values "doc-1" msg updated_at
       ∧ values.*1 = ["document_id"; "processing_status"; "error_message"; "updated_at"]
       ∧ property "vendor_name" values = None
       ∧ property "invoice_number" values = None
       ∧ property "invoice_date" values = None
       ∧ property "total_amount" values = None)
  ∧ (∀ r, (processDocument sample_runtime (reliable None None) "doc-1" "a.pdf"
             empty_world).1 = Returns r →
          success r = false →
          ∃ msg updated_at earlier,
            [CallUpsert "document_info"
               (error_values "doc-1" "Failed to extract document information" "T+4")
               "document_id" false;
             CallLog (failure_entry "doc-1" "Failed to extract document information" 3);
             CallExtract sample_url;
             CallGetPublicUrl "documents" "a.pdf";
             CallLog (start_entry "doc-1" "a.pdf")]
            = CallUpsert "document_info" (error_values "doc-1" msg updated_at)
                "document_id" false :: earlier).
Proof.
  apply (error_upsert_values sample_runtime (reliable None None) "doc-1" "a.pdf"
           empty_world).
  reflexivity.
Defined.

(** ** [getDocumentPageCount] *)

(** [parseInt] gives [NaN] or the number value of an integer. *)
Lemma parseInt_integer (s : string) :
  parseInt s = NaN ∨ ∃ n, parseInt s = round64 (inject_Z n).
Proof.
  unfold parseInt.
  destruct (let '(sign, unsigned) := _ in _) as [| |q] eqn:E; [by left|right..].
  all: repeat case_match; simplify_eq; eauto.
Qed.

Lemma estimatedPages_of_integer (header : option string) (n : Z) :
  parseInt (str_or (default "" header) "0") = Num (inject_Z n) →
  (n < 2 ^ 53)%Z →
  estimatedPages_of header = Num (inject_Z (spec_estimated_pages n)).
Proof.
  intros Hn Hlt. unfold estimatedPages_of. rewrite Hn. by apply estimate_of_integer.
Qed.

Lemma estimatedPages_of_NaN (header : option string) :
  parseInt (str_or (default "" header) "0") = NaN →
  estimatedPages_of header = NaN.
Proof. intros Hn. unfold estimatedPages_of. by rewrite Hn. Qed.

(** The estimate is [NaN] (when the header is not numeric), [Infinity]
    or a positive integer. *)
Lemma estimatedPages_of_cases (header : option string) :
  (parseInt (str_or (default "" header) "0") = NaN ∧ estimatedPages_of header = NaN)
  ∨ estimatedPages_of header = Infinity false
  ∨ ∃ k, (1 ≤ k)%Z ∧ estimatedPages_of header = Num (inject_Z k).
Proof.
  unfold estimatedPages_of. rewrite mul_page_size.
  set (p := parseInt (str_or (default "" header) "0")).
  destruct (max_ceil_cases (div p (Num (inject_Z 102400)))) as [[Hx ->]|[[_ ->]|Hk]];
    [left|by right; left|by right; right].
  split; [|done]. destruct p as [| |x]; [done|done|].
  unfold div in Hx. change (Qeq_bool (inject_Z 102400) 0) with false in Hx.
  by destruct (round64_cases (x / inject_Z 102400)) as [[s Hr]|[q Hr]];
    rewrite Hr in Hx.
Qed.

Lemma estimatedPages_of_positive (header : option string) :
  (∃ n, parseInt (str_or (default "" header) "0") = Num (inject_Z n) ∧ (n < 2 ^ 53)%Z) →
  positive_integer (VNum (estimatedPages_of header)).
Proof.
  intros (n & Hp & Hn). rewrite (estimatedPages_of_integer _ _ Hp Hn).
  exists (spec_estimated_pages n). split; [|done].
  unfold spec_estimated_pages. lia.
Qed.

(** The run that estimates: the lookup gives no page count, the URL
    resolution and the probe succeed. *)
Lemma estimating_run rt env documentId fileUrl w url response :
  lookup_misses env documentId w →
  url_reply env (1 + tick w) = Returns {| publicUrl := url; urlError := None |} →
  fetch_reply env (2 + tick w) = Returns response →
  ok response = true →
  issued w (getDocumentPageCount rt env documentId fileUrl w).2
    [CallUpsert "document_info"
       [("document_id", VStr documentId);
        ("page_count", VNum (estimatedPages_of (content_length response)));
        ("updated_at", VStr (toISOString rt (clock env (3 + tick w))))]
       "document_id" false;
     CallFetchHead url;
     CallGetPublicUrl "documents" fileUrl;
     CallSelectPageCount "document_info" documentId]
  ∧ ((∀ e, upsert_reply env (3 + tick w) ≠ Throws e) →
     (getDocumentPageCount rt env documentId fileUrl w).1
     = Returns (VNum (estimatedPages_of (content_length response))))
  ∧ (∀ e, upsert_reply env (3 + tick w) = Throws e →
          (getDocumentPageCount rt env documentId fileUrl w).1 = Returns (VNum (Num 1))).
Proof.
  intros Hmiss Hurl Hfetch Hok.
  unfold issued, lookup_misses, stored_page_count in *. unfold_run. simpl in *.
  assert (Hcond : ∀ q,
    select_reply env (length (history w)) = Returns q →
    negb (bool_decide (is_Some (queryError
            match q with
            | Some e => {| data := None; queryError := Some e |}
            | None => db_select_page_count documentId (document_info w)
            end)))
    && truthy (page_count_of (data
            match q with
            | Some e => {| data := None; queryError := Some e |}
            | None => db_select_page_count documentId (document_info w)
            end)) = false).
  { intros q Hq. destruct Hmiss as [[e He]|[Ha Hf]].
    - rewrite He in Hq. by simplify_eq.
    - rewrite Ha in Hq. simplify_eq. rewrite Hf. apply andb_false_r. }
  destruct (select_reply env (length (history w))) as [q|e] eqn:Hsel;
    [|destruct Hmiss as [[? ?]|[? _]]; congruence].
  specialize (Hcond q eq_refl).
  destruct q as [e|]; simpl in *.
  - rewrite Hurl. simpl. rewrite Hfetch, Hok. simpl.
    destruct (upsert_reply env _) as [[e'|]|e'] eqn:Hup; simpl;
      (split; [reflexivity|]); (split; [intros Hne|intros e'' He'']);
      try reflexivity; try discriminate He''; by destruct (Hne e').
  - rewrite Hcond. simpl. rewrite Hurl. simpl. rewrite Hfetch, Hok. simpl.
    destruct (upsert_reply env _) as [[e'|]|e'] eqn:Hup; simpl;
      (split; [reflexivity|]); (split; [intros Hne|intros e'' He'']);
      try reflexivity; try discriminate He''; by destruct (Hne e').
Qed.

(** C9.  When the lookup gives no stored page count, the URL resolution
    and the probe succeed and the content length is read as the integer
    [contentLength], below [2^53], the page count that is estimated and
    sent to the platform is [max(1, ceil(contentLength / 102400))]; it is
    the result unless the upsert rejects, and then the result is 1. *)
Theorem page_count_estimate rt env documentId fileUrl w url response contentLength :
  lookup_misses env documentId w →
  url_reply env (1 + tick w) = Returns {| publicUrl := url; urlError := None |} →
  fetch_reply env (2 + tick w) = Returns response →
  ok response = true →
  parseInt (str_or (default "" (content_length response)) "0")
    = Num (inject_Z contentLength) →
  (contentLength < 2 ^ 53)%Z →
  issued w (getDocumentPageCount rt env documentId fileUrl w).2
    [CallUpsert "document_info"
       [("document_id", VStr documentId);
        ("page_count", VNum (Num (inject_Z (spec_estimated_pages contentLength))));
        ("updated_at", VStr (toISOString rt (clock env (3 + tick w))))]
       "document_id" false;
     CallFetchHead url;
     CallGetPublicUrl "documents" fileUrl;
     CallSelectPageCount "document_info" documentId]
  ∧ ((∀ e, upsert_reply env (3 + tick w) ≠ Throws e) →
     (getDocumentPageCount rt env documentId fileUrl w).1
     = Returns (VNum (Num (inject_Z (spec_estimated_pages contentLength)))))
  ∧ (∀ e, upsert_reply env (3 + tick w) = Throws e →
          (getDocumentPageCount rt env documentId fileUrl w).1 = Returns (VNum (Num 1))).
Proof.
  intros Hmiss Hurl Hfetch Hok Hlen Hsafe.
  rewrite <- (estimatedPages_of_integer _ _ Hlen Hsafe).
  by apply estimating_run.
Qed.

(** In particular: 250,000 bytes are estimated at 3 pages. *)
Lemma page_count_estimate_witness :
  issued empty_world
    (getDocumentPageCount sample_runtime (reliable None (Some "250000")) "doc-1" "a.pdf"
       empty_world).2
    [CallUpsert "document_info"
       [("document_id", VStr "doc-1");
        ("page_count", VNum (Num (inject_Z 3)));
        ("updated_at", VStr "T+3")]
       "document_id" false;
     CallFetchHead sample_url;
     CallGetPublicUrl "documents" "a.pdf";
     CallSelectPageCount "document_info" "doc-1"]
  ∧ ((∀ e, upsert_reply (reliable None (Some "250000")) 3 ≠ Throws e) →
     (getDocumentPageCount sample_runtime (reliable None (Some "250000")) "doc-1" "a.pdf"
        empty_world).1
     = Returns (VNum (Num (inject_Z 3))))
  ∧ (∀ e, upsert_reply (reliable None (Some "250000")) 3 = Throws e →
          (getDocumentPageCount sample_runtime (reliable None (Some "250000")) "doc-1"
             "a.pdf" empty_world).1 = Returns (VNum (Num 1))).
Proof.
  apply (page_count_estimate sample_runtime (reliable None (Some "250000"))
           "doc-1" "a.pdf" empty_world sample_url
           {| ok := true; content_length := Some "250000" |} 250000).
  - right. split; reflexivity.
  - reflexivity.
  - reflexivity.
  - reflexivity.
  - vm_compute. reflexivity.
  - vm_compute. reflexivity.
Defined.

Example spec_estimated_pages_250000 : spec_estimated_pages 250000 = 3%Z.
Proof. reflexivity. Qed.

Example getDocumentPageCount_250000 :
  (getDocumentPageCount sample_runtime (reliable None (Some "250000")) "doc-1" "a.pdf"
     empty_world).1 = Returns (VNum (Num 3)).
Proof. vm_compute. reflexivity. Qed.

(** C9, as stated, fails: for 250,000 bytes, with no stored count and a
    probe that succeeds, the result is 1 and not 3 when the upsert
    rejects; and from [2^53] on the estimate is computed on rounded
    numbers, so that it can be less than [max(1, ceil(n / 102400))]. *)
Lemma rejected_upsert_gives_one :
  lookup_misses (upsert_rejects (Some "250000")) "doc-1" empty_world
  ∧ fetch_reply (upsert_rejects (Some "250000")) 2
    = Returns {| ok := true; content_length := Some "250000" |}
  ∧ estimatedPages_of (Some "250000") = Num 3
  ∧ (getDocumentPageCount sample_runtime (upsert_rejects (Some "250000")) "doc-1" "a.pdf"
       empty_world).1 = Returns (VNum (Num 1))
  ∧ estimatedPages_of (Some "112589990684262401") = Num 1099511627776
  ∧ spec_estimated_pages 112589990684262401 = 1099511627777%Z.
Proof.
  split; [right; split; reflexivity|].
  repeat split; vm_compute; reflexivity.
Qed.

(** [getDocumentPageCount] never throws. *)
Lemma getDocumentPageCount_returns rt env documentId fileUrl w :
  ∃ v, (getDocumentPageCount rt env documentId fileUrl w).1 = Returns v.
Proof. unfold_run. run_cases; by eexists. Qed.

(** Its result is a positive integer when the stored count and the
    content length are what they should be, and otherwise [NaN] or
    [Infinity] at worst. *)
Lemma getDocumentPageCount_result rt env documentId fileUrl w :
  stored_count_positive documentId w →
  ∃ v, (getDocumentPageCount rt env documentId fileUrl w).1 = Returns v
       ∧ (positive_integer v
          ∨ (v = VNum NaN ∧ ¬ numeric_content_length env)
          ∨ (v = VNum (Infinity false) ∧ ¬ safe_content_length env)).
Proof.
  intros Hstored.
  assert (Hone : positive_integer (VNum (Num 1))) by (by exists 1%Z).
  assert (Hest : ∀ t r, fetch_reply env t = Returns r →
    positive_integer (VNum (estimatedPages_of (content_length r)))
    ∨ (VNum (estimatedPages_of (content_length r)) = VNum NaN
       ∧ ¬ numeric_content_length env)
    ∨ (VNum (estimatedPages_of (content_length r)) = VNum (Infinity false)
       ∧ ¬ safe_content_length env)).
  { intros t r Hr.
    destruct (estimatedPages_of_cases (content_length r)) as [[Hn ->]|[Hinf|(k & Hk & ->)]].
    - right. left. split; [done|]. intros Hnum. by apply (Hnum t r Hr).
    - right. right. split; [by rewrite Hinf|]. intros Hsafe.
      destruct (Hsafe t r Hr) as (n & Hp & Hn).
      rewrite (estimatedPages_of_integer _ _ Hp Hn) in Hinf. discriminate Hinf.
    - left. by exists k. }
  unfold stored_count_positive, stored_page_count in *.
  unfold_run. run_cases; eexists; (split; [reflexivity|]); try (by left).
  all: try (eapply Hest; eassumption).
  all: left;
       match goal with
       | H : _ && _ = true |- _ => apply andb_true_iff in H as [_ H]
       end; auto.
Qed.






(** The hypotheses of the last part are met by [probe_fails]. *)
Example probe_fails_degrades :
  lookup_misses probe_fails "doc-1" empty_world
  ∧ estimate_fails probe_fails (1 + tick empty_world)
  ∧ (getDocumentPageCount sample_runtime probe_fails "doc-1" "a.pdf" empty_world).1
    = Returns (VNum (Num 1)).
Proof.
  split; [right; split; reflexivity|]. split; [|reflexivity].
  right. right. right. left. eexists. split; reflexivity.
Qed.


(** A header that is not a number gives [NaN], and a stored count is
    returned as it is: the two provisos of C10 are needed. *)
Example non_numeric_header_gives_NaN :
  (getDocumentPageCount sample_runtime (reliable None (Some "chunked")) "doc-1" "a.pdf"
     empty_world).1 = Returns (VNum NaN).
Proof. vm_compute. reflexivity. Qed.

Example huge_header_gives_Infinity :
  (getDocumentPageCount sample_runtime
     (reliable None (Some ("1" ++ String.concat "" (List.repeat "0000000000" 31))))
     "doc-1" "a.pdf" empty_world).1 = Returns (VNum (Infinity false)).
Proof. vm_compute. reflexivity. Qed.

Example stored_count_returned_as_is :
  (getDocumentPageCount sample_runtime (reliable None None) "doc-1" "a.pdf"
     {| document_info := [to_row [("document_id", VStr "doc-1");
                                  ("page_count", VNum (Num (-2)))]];
        history := [] |}).1 = Returns (VNum (Num (-2))).
Proof. vm_compute. reflexivity. Qed.

(** Once estimated, the count is stored and later lookups return it. *)
Example estimate_is_stored :
  (getDocumentPageCount sample_runtime (reliable None None) "doc-1" "a.pdf"
     (getDocumentPageCount sample_runtime (reliable None (Some "250000")) "doc-1" "a.pdf"
        empty_world).2).1 = Returns (VNum (Num 3)).
Proof. vm_compute. reflexivity. Qed.

(** ** More on the table: sequences of upserts *)

Lemma rows_for_upsert_other (d d' : string) (new : Row) (tbl : Table) :
  new !! "document_id" = Some (VStr d) →
  d' ≠ d →
  rows_for d' (db_upsert new "document_id" false tbl) = rows_for d' tbl.
Proof.
  intros Hid Hne. rewrite (db_upsert_unfold d new Hid). unfold rows_for.
  assert (Hnew : eq_column "document_id" (VStr d') new = false).
  { unfold eq_column. rewrite Hid. simpl. by apply String.eqb_neq. }
  assert (Hmerged : ∀ old, eq_column "document_id" (VStr d') (new ∪ old) = false).
  { intros old. unfold eq_column. erewrite lookup_union_Some_l by exact Hid.
    simpl. by apply String.eqb_neq. }
  assert (Hold : ∀ old, eq_column "document_id" (VStr d) old = true →
                        eq_column "document_id" (VStr d') old = false).
  { intros old. unfold eq_column.
    destruct (old !! "document_id") as [[| |s|]|]; simpl; try done.
    intros ->%String.eqb_eq. by apply String.eqb_neq. }
  destruct (List.existsb _ tbl).
  - induction tbl as [|r tbl IH]; simpl; [done|].
    destruct (eq_column "document_id" (VStr d) r) eqn:Hr.
    + by rewrite Hmerged, (Hold _ Hr).
    + by rewrite IH.
  - rewrite List.filter_app. simpl. rewrite Hnew. apply app_nil_r.
Qed.

Lemma upsert_length_bounds (new : Row) (onConflict : string) (tbl : Table) :
  (length tbl ≤ length (db_upsert new onConflict false tbl) ≤ S (length tbl))%nat.
Proof.
  unfold db_upsert. destruct (List.existsb _ tbl).
  - rewrite List.length_map. lia.
  - rewrite length_app. simpl. lia.
Qed.

Lemma rows_for_upsert_nonempty (d : string) (new : Row) (tbl : Table) :
  new !! "document_id" = Some (VStr d) →
  rows_for d (db_upsert new "document_id" false tbl) ≠ [].
Proof.
  intros Hid. rewrite (rows_for_upsert d new Hid).
  by destruct (rows_for d tbl).
Qed.

Section Upserts.

Context (d : string) (rows : list Row).
Context (Hrows : ∀ r, r ∈ rows → r !! "document_id" = Some (VStr d)).

Lemma upserts_other (d' : string) (tbl : Table) :
  d' ≠ d → rows_for d' (upserts rows tbl) = rows_for d' tbl.
Proof using Hrows.
  intros Hne. unfold upserts. revert tbl.
  induction rows as [|r rs IH]; intros tbl; simpl; [done|].
  rewrite IH by (intros; apply Hrows; by right).
  apply (rows_for_upsert_other d); [apply Hrows; by left|done].
Qed.

Lemma upserts_unique (tbl : Table) :
  (length (rows_for d tbl) ≤ 1)%nat →
  (length (rows_for d (upserts rows tbl)) ≤ 1)%nat.
Proof using Hrows.
  unfold upserts. revert tbl.
  induction rows as [|r rs IH]; intros tbl Hle; simpl; [done|].
  apply IH; [intros; apply Hrows; by right|].
  apply upsert_keeps_unique; [apply Hrows; by left|done].
Qed.

Lemma upserts_length (tbl : Table) :
  (length tbl ≤ length (upserts rows tbl) ≤ S (length tbl))%nat.
Proof using Hrows.
  unfold upserts. destruct rows as [|r rs]; simpl; [lia|].
  assert (Hr : r !! "document_id" = Some (VStr d)) by (apply Hrows; by left).
  pose proof (upsert_length_bounds r "document_id" tbl) as Hfirst.
  pose proof (rows_for_upsert_nonempty d r tbl Hr) as Hne.
  assert (Hrs : ∀ r', r' ∈ rs → r' !! "document_id" = Some (VStr d))
    by (intros; apply Hrows; by right).
  clear Hrows Hr.
  revert Hfirst Hne. generalize (db_upsert r "document_id" false tbl) as tbl'.
  induction rs as [|r' rs IH]; intros tbl' Hfirst Hne; simpl; [lia|].
  assert (Hr' : r' !! "document_id" = Some (VStr d)) by (apply Hrs; by left).
  apply IH.
  - intros; apply Hrs; by right.
  - by rewrite (upsert_existing_length d r' Hr').
  - by apply rows_for_upsert_nonempty.
Qed.

Lemma upserts_keep_column (k : string) (tbl : Table) (old : Row) :
  (∀ r, r ∈ rows → r !! k = None) →
  rows_for d tbl = [old] →
  ∃ row, rows_for d (upserts rows tbl) = [row] ∧ row !! k = old !! k.
Proof using Hrows.
  unfold upserts. revert tbl old.
  induction rows as [|r rs IH]; intros tbl old Hk Hold; simpl; [by exists old|].
  assert (Hr : r !! "document_id" = Some (VStr d)) by (apply Hrows; by left).
  destruct (IH (λ r' H', Hrows r' (list_elem_of_further _ _ _ H'))
              (db_upsert r "document_id" false tbl) (r ∪ old)) as (row & Hrow & Hcol).
  - intros; apply Hk; by right.
  - by rewrite (rows_for_upsert d r Hr), Hold.
  - exists row. split; [done|]. rewrite Hcol.
    apply lookup_union_r, Hk. by left.
Qed.

End Upserts.

(** ** [processDocument]: every run *)

(** The table after a run is the table before it, after at most two
    upserts for the document, none of which sends a page count. *)
Lemma processDocument_table rt env documentId fileUrl w :
  ∃ rows,
    (length rows ≤ 2)%nat
    ∧ document_info (processDocument rt env documentId fileUrl w).2
      = upserts rows (document_info w)
    ∧ ∀ r, r ∈ rows →
           r !! "document_id" = Some (VStr documentId) ∧ r !! "page_count" = None.
Proof.
  unfold upserts. unfold_run. run_cases.
  all: first
    [ solve [ exists []; split; [simpl; lia|]; split; [reflexivity|];
              intros r Hr; by apply elem_of_nil in Hr ]
    | solve [ eexists [_]; split; [simpl; lia|]; split; [reflexivity|];
              intros r Hr;
              repeat (apply elem_of_cons in Hr as [->|Hr]; [split; row_lookup|]);
              by apply elem_of_nil in Hr ]
    | solve [ eexists [_; _]; split; [simpl; lia|]; split; [reflexivity|];
              intros r Hr;
              repeat (apply elem_of_cons in Hr as [->|Hr]; [split; row_lookup|]);
              by apply elem_of_nil in Hr ] ].
Qed.

(** X1.  Whatever the collaborators do, a run of [processDocument] leaves
    the rows of every other document as they were. *)
Theorem other_documents_untouched rt env documentId fileUrl w other :
  other ≠ documentId →
  records other (processDocument rt env documentId fileUrl w).2 = records other w.
Proof.
  intros Hne. unfold records.
  destruct (processDocument_table rt env documentId fileUrl w) as (rows & _ & -> & Hrows).
  apply (upserts_other documentId); [|done]. intros r Hr. by apply Hrows.
Qed.

Lemma other_documents_untouched_witness :
  records "doc-2"
    (processDocument sample_runtime (reliable (Some invoice_42) None) "doc-1" "a.pdf"
       two_documents).2
  = records "doc-2" two_documents.
Proof.
  apply (other_documents_untouched sample_runtime (reliable (Some invoice_42) None)
           "doc-1" "a.pdf" two_documents "doc-2").
  discriminate.
Defined.

(** X2.  Whatever the collaborators do, a run of [processDocument] keeps
    the uniqueness constraint of every identifier, removes no row and
    adds at most one. *)
Theorem uniqueness_kept rt env documentId fileUrl w any :
  unique_record any w →
  unique_record any (processDocument rt env documentId fileUrl w).2
  ∧ (length (document_info w)
     ≤ length (document_info (processDocument rt env documentId fileUrl w).2)
     ≤ S (length (document_info w)))%nat.
Proof.
  intros Huniq. unfold unique_record, records in *.
  destruct (processDocument_table rt env documentId fileUrl w) as (rows & _ & -> & Hrows).
  assert (Hid : ∀ r, r ∈ rows → r !! "document_id" = Some (VStr documentId))
    by (intros r Hr; by apply Hrows).
  split; [|by apply (upserts_length documentId)].
  destruct (decide (any = documentId)) as [->|Hne].
  - by apply upserts_unique.
  - by rewrite (upserts_other documentId rows Hid).
Qed.

Lemma uniqueness_kept_witness :
  unique_record "doc-1"
    (processDocument sample_runtime (reliable (Some invoice_42) None) "doc-1" "a.pdf"
       two_documents).2
  ∧ (length (document_info two_documents)
     ≤ length (document_info
         (processDocument sample_runtime (reliable (Some invoice_42) None) "doc-1" "a.pdf"
            two_documents).2)
     ≤ S (length (document_info two_documents)))%nat.
Proof.
  apply (uniqueness_kept sample_runtime (reliable (Some invoice_42) None)
           "doc-1" "a.pdf" two_documents "doc-1").
  vm_compute. lia.
Defined.

(** X3.  [processDocument] never changes a stored page count: whatever
    the outcome of the run, the row of the document has the page count it
    had before. *)
Theorem page_count_untouched rt env documentId fileUrl w old :
  records documentId w = [old] →
  ∃ row,
    records documentId (processDocument rt env documentId fileUrl w).2 = [row]
    ∧ row !! "page_count" = old !! "page_count".
Proof.
  intros Hold. unfold records in *.
  destruct (processDocument_table rt env documentId fileUrl w) as (rows & _ & -> & Hrows).
  apply (upserts_keep_column documentId); [| |done]; intros r Hr; by apply Hrows.
Qed.

Lemma page_count_untouched_witness :
  ∃ row,
    records "doc-1"
      (processDocument sample_runtime (reliable (Some invoice_42) None) "doc-1" "a.pdf"
         two_documents).2 = [row]
    ∧ row !! "page_count" = doc_1_row !! "page_count".
Proof.
  apply (page_count_untouched sample_runtime (reliable (Some invoice_42) None)
           "doc-1" "a.pdf" two_documents doc_1_row).
  vm_compute. reflexivity.
Defined.

Lemma str_or_default_nonempty (a : string) :
  str_or a "Failed to process document" ≠ "".
Proof. by destruct a. Qed.

(** X4.  The result of a run is well formed: a success carries no error,
    a failure carries an error message that is not empty. *)
Theorem result_well_formed rt env documentId fileUrl w r :
  (processDocument rt env documentId fileUrl w).1 = Returns r →
  if success r then error r = None
  else ∃ msg, error r = Some msg ∧ msg ≠ "".
Proof.
  intros Hrun. unfold_run. run_cases.
  all: try reflexivity.
  all: eexists; split; [reflexivity|]; try discriminate;
       apply str_or_default_nonempty.
Qed.

Lemma result_well_formed_witness :
  if success (failed_with "Failed to process document") then
    error (failed_with "Failed to process document") = None
  else ∃ msg, error (failed_with "Failed to process document") = Some msg ∧ msg ≠ "".
Proof.
  apply (result_well_formed sample_runtime extraction_rejects_silently "doc-1" "a.pdf"
           empty_world).
  reflexivity.
Defined.

(** X5.  The calls of a run: between one and seven, of which at most
    three writes to the log, at most one URL resolution, at most one
    extraction and at most two upserts; never a query or a probe. *)
Theorem call_budget rt env documentId fileUrl w calls :
  issued w (processDocument rt env documentId fileUrl w).2 calls →
  (1 ≤ length calls ≤ 7)%nat
  ∧ (1 ≤ count_calls is_log calls ≤ 3)%nat
  ∧ (count_calls is_url calls ≤ 1)%nat
  ∧ (count_calls is_extract calls ≤ 1)%nat
  ∧ (count_calls is_upsert calls ≤ 2)%nat
  ∧ count_calls is_select calls = 0%nat
  ∧ count_calls is_fetch calls = 0%nat.
Proof.
  intros Hcalls. unfold_run. run_cases.
  all: known_calls Hcalls; unfold count_calls; simpl; lia.
Qed.

Lemma call_budget_witness :
  (1 ≤ length [CallLog (failure_entry "" "Invalid document ID" 0)] ≤ 7)%nat
  ∧ (1 ≤ count_calls is_log [CallLog (failure_entry "" "Invalid document ID" 0)] ≤ 3)%nat
  ∧ (count_calls is_url [CallLog (failure_entry "" "Invalid document ID" 0)] ≤ 1)%nat
  ∧ (count_calls is_extract [CallLog (failure_entry "" "Invalid document ID" 0)] ≤ 1)%nat
  ∧ (count_calls is_upsert [CallLog (failure_entry "" "Invalid document ID" 0)] ≤ 2)%nat
  ∧ count_calls is_select [CallLog (failure_entry "" "Invalid document ID" 0)] = 0%nat
  ∧ count_calls is_fetch [CallLog (failure_entry "" "Invalid document ID" 0)] = 0%nat.
Proof.
  apply (call_budget sample_runtime (log_down None) "" "a.pdf" empty_world).
  reflexivity.
Defined.

(** ** [processDocument]: the other ways to fail *)

(** The row left by the upsert of the [catch] block, when it is applied. *)
Lemma error_row (d msg updated_at : string) (tbl : Table) :
  (length (rows_for d tbl) ≤ 1)%nat →
  ∃ row,
    rows_for d (db_upsert (to_row (error_values d msg updated_at)) "document_id" false tbl)
      = [row]
    ∧ row !! "processing_status" = Some (VStr "error")
    ∧ row !! "error_message" = Some (VStr msg).
Proof.
  intros Hle.
  assert (Hid : to_row (error_values d msg updated_at) !! "document_id" = Some (VStr d))
    by (unfold error_values; row_lookup).
  destruct (upsert_single d _ Hid tbl Hle) as (row & Hrow & Hcols).
  exists row. split; [done|].
  split; apply Hcols; unfold error_values; row_lookup.
Qed.

(** X6.  When the extraction returns no data, the run fails with
    ['Failed to extract document information'], and (the calls of the
    [catch] block succeeding) the single row of the document has the
    status ['error'] and that message as its [error_message]. *)
Theorem extraction_null_fails rt env documentId fileUrl w url :
  documentId ≠ "" →
  unique_record documentId w →
  log_reply env (tick w) = Returns tt →
  url_reply env (1 + tick w) = Returns {| publicUrl := url; urlError := None |} →
  extract_reply env (2 + tick w) = Returns None →
  log_reply env (3 + tick w) = Returns tt →
  upsert_reply env (4 + tick w) = Returns None →
  ∃ w' row,
    processDocument rt env documentId fileUrl w
      = (Returns (failed_with "Failed to extract document information"), w')
    ∧ records documentId w' = [row]
    ∧ row !! "processing_status" = Some (VStr "error")
    ∧ row !! "error_message" = Some (VStr "Failed to extract document information").
Proof.
  intros Hd Huniq Hlog1 Hurl Hext Hlog2 Hup.
  unfold unique_record, records in *. unfold_run. simpl in *.
  destruct documentId as [|c documentId]; [done|]. simpl.
  rewrite Hlog1, Hurl. simpl. rewrite Hext. simpl. rewrite Hlog2, Hup.
  destruct (error_row (String c documentId) "Failed to extract document information"
              (toISOString rt (clock env (S (S (S (S (length (history w))))))))
              (document_info w) Huniq) as (row & Hrow & Hst & Hmsg).
  eexists _, row. split; [reflexivity|]. done.
Qed.

Lemma extraction_null_fails_witness :
  ∃ w' row,
    processDocument sample_runtime (reliable None None) "doc-1" "a.pdf" two_documents
      = (Returns (failed_with "Failed to extract document information"), w')
    ∧ records "doc-1" w' = [row]
    ∧ row !! "processing_status" = Some (VStr "error")
    ∧ row !! "error_message" = Some (VStr "Failed to extract document information").
Proof.
  apply (extraction_null_fails sample_runtime (reliable None None) "doc-1" "a.pdf"
           two_documents sample_url); discharge.
Defined.

(** X7.  When the URL resolution reports an error, the error handed to
    the [catch] block is ['Failed to get document URL'] (the message of
    the storage error is not reported), and the extraction is not called.
    When the write to the log of the [catch] block returns and its upsert
    does not reject, the run returns the failure with that message after
    four calls: the two writes to the log, the URL resolution and the
    error upsert.  When one of the two rejects, the run throws that
    rejection instead, after three calls when it is the write to the
    log. *)
Theorem url_error_fails rt env documentId fileUrl w url e :
  documentId ≠ "" →
  log_reply env (tick w) = Returns tt →
  url_reply env (1 + tick w) = Returns {| publicUrl := url; urlError := Some e |} →
  ∃ calls,
    issued w (processDocument rt env documentId fileUrl w).2 calls
    ∧ count_calls is_extract calls = 0%nat
    ∧ CallLog (failure_entry documentId "Failed to get document URL"
                 (clock env (2 + tick w) - clock env (tick w))) ∈ calls
    ∧ (log_reply env (2 + tick w) = Returns tt →
       (∀ e', upsert_reply env (3 + tick w) ≠ Throws e') →
       (processDocument rt env documentId fileUrl w).1
       = Returns (failed_with "Failed to get document URL")
       ∧ calls
         = [CallUpsert "document_info"
              (error_values documentId "Failed to get document URL"
                 (toISOString rt (clock env (3 + tick w))))
              "document_id" false;
            CallLog (failure_entry documentId "Failed to get document URL"
                       (clock env (2 + tick w) - clock env (tick w)));
            CallGetPublicUrl "documents" fileUrl;
            CallLog (start_entry documentId fileUrl)])
    ∧ (∀ e', log_reply env (2 + tick w) = Throws e' →
             (processDocument rt env documentId fileUrl w).1 = Throws e'
             ∧ length calls = 3%nat)
    ∧ (∀ e', log_reply env (2 + tick w) = Returns tt →
             upsert_reply env (3 + tick w) = Throws e' →
             (processDocument rt env documentId fileUrl w).1 = Throws e').
Proof.
  intros Hd Hlog1 Hurl.
  unfold issued. unfold_run. simpl in *.
  destruct documentId as [|c documentId]; [done|]. simpl.
  rewrite Hlog1, Hurl. simpl.
  destruct (log_reply env (S (S (length (history w))))) as [[]|e1] eqn:Hlog2;
    [destruct (upsert_reply env (S (S (S (length (history w)))))) as [[e2|]|e2] eqn:Hup|];
    simpl.
  all: eexists; split; [solve_issued|].
  all: split; [reflexivity|].
  all: split; [unfold failure_entry; set_solver|].
  all: split; [intros Hlog Hrej; first [done | by destruct (Hrej e2)]|].
  all: split; [intros e' He'|intros e' Hlog He']; by simplify_eq.
Qed.

Lemma url_error_fails_witness :
  ∃ calls,
    issued empty_world
      (processDocument sample_runtime storage_error "doc-1" "a.pdf" empty_world).2 calls
    ∧ count_calls is_extract calls = 0%nat
    ∧ CallLog (failure_entry "doc-1" "Failed to get document URL"
                 (clock storage_error (2 + tick empty_world)
                  - clock storage_error (tick empty_world))) ∈ calls
    ∧ (log_reply storage_error (2 + tick empty_world) = Returns tt →
       (∀ e', upsert_reply storage_error (3 + tick empty_world) ≠ Throws e') →
       (processDocument sample_runtime storage_error "doc-1" "a.pdf" empty_world).1
       = Returns (failed_with "Failed to get document URL")
       ∧ calls
         = [CallUpsert "document_info"
              (error_values "doc-1" "Failed to get document URL"
                 (toISOString sample_runtime (clock storage_error (3 + tick empty_world))))
              "document_id" false;
            CallLog (failure_entry "doc-1" "Failed to get document URL"
                       (clock storage_error (2 + tick empty_world)
                        - clock storage_error (tick empty_world)));
            CallGetPublicUrl "documents" "a.pdf";
            CallLog (start_entry "doc-1" "a.pdf")])
    ∧ (∀ e', log_reply storage_error (2 + tick empty_world) = Throws e' →
             (processDocument sample_runtime storage_error "doc-1" "a.pdf" empty_world).1
             = Throws e'
             ∧ length calls = 3%nat)
    ∧ (∀ e', log_reply storage_error (2 + tick empty_world) = Returns tt →
             upsert_reply storage_error (3 + tick empty_world) = Throws e' →
             (processDocument sample_runtime storage_error "doc-1" "a.pdf" empty_world).1
             = Throws e').
Proof.
  apply (url_error_fails sample_runtime storage_error "doc-1" "a.pdf" empty_world
           "" {| message := "Object not found" |}); discharge.
Defined.

(** X8.  When the platform answers the upsert of the extracted fields
    with an error, the run fails with
    ['Failed to save document information: '] followed by the message of
    that error, and (the calls of the [catch] block succeeding) the single
    row of the document has the status ['error']. *)
Theorem save_error_fails rt env documentId fileUrl w url info e :
  documentId ≠ "" →
  unique_record documentId w →
  log_reply env (tick w) = Returns tt →
  url_reply env (1 + tick w) = Returns {| publicUrl := url; urlError := None |} →
  extract_reply env (2 + tick w) = Returns (Some info) →
  date_parses rt info →
  upsert_reply env (3 + tick w) = Returns (Some e) →
  log_reply env (4 + tick w) = Returns tt →
  upsert_reply env (5 + tick w) = Returns None →
  ∃ w' row,
    processDocument rt env documentId fileUrl w
      = (Returns (failed_with ("Failed to save document information: " ++ message e)), w')
    ∧ records documentId w' = [row]
    ∧ row !! "processing_status" = Some (VStr "error")
    ∧ row !! "error_message"
      = Some (VStr ("Failed to save document information: " ++ message e)).
Proof.
  intros Hd Huniq Hlog1 Hurl Hext Hdate Hup1 Hlog2 Hup2.
  unfold unique_record, records in *. unfold_run. simpl in *.
  destruct documentId as [|c documentId]; [done|]. simpl.
  rewrite Hlog1, Hurl. simpl. rewrite Hext.
  rewrite (date_check_passes _ _ Hdate). simpl.
  rewrite Hup1. simpl. rewrite Hlog2, Hup2.
  destruct (error_row (String c documentId)
              ("Failed to save document information: " ++ message e)
              (toISOString rt (clock env (S (S (S (S (S (length (history w)))))))))
              (document_info w) Huniq) as (row & Hrow & Hst & Hmsg).
  eexists _, row. split; [reflexivity|]. done.
Qed.

Lemma save_error_fails_witness :
  ∃ w' row,
    processDocument sample_runtime (save_fails (Some invoice_42)) "doc-1" "a.pdf"
      two_documents
      = (Returns (failed_with ("Failed to save document information: "
                               ++ message {| message := "permission denied" |})), w')
    ∧ records "doc-1" w' = [row]
    ∧ row !! "processing_status" = Some (VStr "error")
    ∧ row !! "error_message"
      = Some (VStr ("Failed to save document information: "
                    ++ message {| message := "permission denied" |})).
Proof.
  apply (save_error_fails sample_runtime (save_fails (Some invoice_42)) "doc-1" "a.pdf"
           two_documents sample_url invoice_42 {| message := "permission denied" |}); discharge.
Defined.

(** X9.  When the extraction rejects with an error, that error is
    handed to the [catch] block.  When the write to the log of the [catch]
    block returns and its upsert is applied, the result carries the
    message of the error, or ['Failed to process document'] when that
    message is empty, while the [error_message] saved in the single row of
    the document is the message as it is, empty or not.  When the upsert
    is answered with an error, the result is the same and no row is saved.
    When the write to the log or the upsert rejects, the run throws that
    rejection and no row is saved. *)
Theorem rejection_reported rt env documentId fileUrl w url e :
  documentId ≠ "" →
  unique_record documentId w →
  log_reply env (tick w) = Returns tt →
  url_reply env (1 + tick w) = Returns {| publicUrl := url; urlError := None |} →
  extract_reply env (2 + tick w) = Throws e →
  (log_reply env (3 + tick w) = Returns tt →
   upsert_reply env (4 + tick w) = Returns None →
   ∃ w' row,
     processDocument rt env documentId fileUrl w
       = (Returns (failed_with (str_or (message e) "Failed to process document")), w')
     ∧ records documentId w' = [row]
     ∧ row !! "processing_status" = Some (VStr "error")
     ∧ row !! "error_message" = Some (VStr (message e)))
  ∧ (∀ e', log_reply env (3 + tick w) = Returns tt →
           upsert_reply env (4 + tick w) = Returns (Some e') →
           (processDocument rt env documentId fileUrl w).1
           = Returns (failed_with (str_or (message e) "Failed to process document"))
           ∧ document_info (processDocument rt env documentId fileUrl w).2
             = document_info w)
  ∧ (∀ e', log_reply env (3 + tick w) = Throws e'
           ∨ (log_reply env (3 + tick w) = Returns tt
              ∧ upsert_reply env (4 + tick w) = Throws e') →
           (processDocument rt env documentId fileUrl w).1 = Throws e'
           ∧ document_info (processDocument rt env documentId fileUrl w).2
             = document_info w).
Proof.
  intros Hd Huniq Hlog1 Hurl Hext.
  unfold unique_record, records in *. unfold_run. simpl in *.
  destruct documentId as [|c documentId]; [done|]. simpl.
  rewrite Hlog1, Hurl. simpl. rewrite Hext. simpl. split.
  - intros Hlog2 Hup. rewrite Hlog2, Hup.
    destruct (error_row (String c documentId) (message e)
                (toISOString rt (clock env (S (S (S (S (length (history w))))))))
                (document_info w) Huniq) as (row & Hrow & Hst & Hmsg).
    eexists _, row. split; [reflexivity|]. done.
  - split.
    + intros e' Hlog2 Hup. by rewrite Hlog2, Hup.
    + intros e' [Hlog2|[Hlog2 Hup]]; rewrite Hlog2; [done|]. by rewrite Hup.
Qed.

(** With an empty message the result and the row differ. *)
Lemma rejection_reported_witness :
  (log_reply extraction_rejects_silently (3 + tick empty_world) = Returns tt →
   upsert_reply extraction_rejects_silently (4 + tick empty_world) = Returns None →
   ∃ w' row,
     processDocument sample_runtime extraction_rejects_silently "doc-1" "a.pdf" empty_world
       = (Returns (failed_with (str_or (message {| message := "" |})
                                  "Failed to process document")), w')
     ∧ records "doc-1" w' = [row]
     ∧ row !! "processing_status" = Some (VStr "error")
     ∧ row !! "error_message" = Some (VStr (message {| message := "" |})))
  ∧ (∀ e', log_reply extraction_rejects_silently (3 + tick empty_world) = Returns tt →
           upsert_reply extraction_rejects_silently (4 + tick empty_world)
           = Returns (Some e') →
           (processDocument sample_runtime extraction_rejects_silently "doc-1" "a.pdf"
              empty_world).1
           = Returns (failed_with (str_or (message {| message := "" |})
                                     "Failed to process document"))
           ∧ document_info
               (processDocument sample_runtime extraction_rejects_silently "doc-1" "a.pdf"
                  empty_world).2
             = document_info empty_world)
  ∧ (∀ e', log_reply extraction_rejects_silently (3 + tick empty_world) = Throws e'
           ∨ (log_reply extraction_rejects_silently (3 + tick empty_world) = Returns tt
              ∧ upsert_reply extraction_rejects_silently (4 + tick empty_world)
                = Throws e') →
           (processDocument sample_runtime extraction_rejects_silently "doc-1" "a.pdf"
              empty_world).1 = Throws e'
           ∧ document_info
               (processDocument sample_runtime extraction_rejects_silently "doc-1" "a.pdf"
                  empty_world).2
             = document_info empty_world).
Proof.
  apply (rejection_reported sample_runtime extraction_rejects_silently "doc-1" "a.pdf"
           empty_world sample_url {| message := "" |}); discharge.
Defined.

Example silent_rejection_reported :
  (processDocument sample_runtime extraction_rejects_silently "doc-1" "a.pdf"
     empty_world).1 = Returns (failed_with "Failed to process document")
  ∧ List.map (λ r : Row, r !! "error_message")
      (records "doc-1"
         (processDocument sample_runtime extraction_rejects_silently "doc-1" "a.pdf"
            empty_world).2)
    = [Some (VStr "")].
Proof. split; vm_compute; reflexivity. Qed.

(** ** [processDocument]: more on the success path *)

(** X10.  When the extracted record has no [invoiceDate], or an empty one,
    the date is not validated: whatever [parseDate] is, the run succeeds
    (the other calls succeeding) and the row has [invoice_date] [null]. *)
Theorem missing_date_is_null rt env documentId fileUrl w url info :
  documentId ≠ "" →
  unique_record documentId w →
  log_reply env (tick w) = Returns tt →
  url_reply env (1 + tick w) = Returns {| publicUrl := url; urlError := None |} →
  extract_reply env (2 + tick w) = Returns (Some info) →
  invoiceDate info = None ∨ invoiceDate info = Some "" →
  upsert_reply env (3 + tick w) = Returns None →
  log_reply env (4 + tick w) = Returns tt →
  ∃ w' row,
    processDocument rt env documentId fileUrl w = (Returns succeeded, w')
    ∧ records documentId w' = [row]
    ∧ row !! "processing_status" = Some (VStr "completed")
    ∧ row !! "invoice_date" = Some VNull.
Proof.
  intros Hd Huniq Hlog1 Hurl Hext Hdate Hup Hlog2.
  unfold unique_record, records in *. unfold_run. simpl in *.
  destruct documentId as [|c documentId]; [done|]. simpl.
  rewrite Hlog1, Hurl. simpl. rewrite Hext.
  assert (Hfalsy : truthy (of_string (invoiceDate info)) = false)
    by (by destruct Hdate as [-> | ->]).
  rewrite Hfalsy. simpl. rewrite Hup. simpl. rewrite Hlog2.
  match goal with |- context [db_upsert ?new _ _ _] => set (sent := new) end.
  assert (Hid : sent !! "document_id" = Some (VStr (String c documentId)))
    by (subst sent; row_lookup).
  destruct (upsert_single _ sent Hid (document_info w) Huniq) as (row & Hrow & Hcols).
  eexists _, row. split; [reflexivity|]. split; [exact Hrow|].
  split; apply Hcols; subst sent; row_lookup.
Qed.

Lemma missing_date_is_null_witness :
  ∃ w' row,
    processDocument sample_runtime (reliable (Some invoice_undated) None) "doc-1" "a.pdf"
      empty_world = (Returns succeeded, w')
    ∧ records "doc-1" w' = [row]
    ∧ row !! "processing_status" = Some (VStr "completed")
    ∧ row !! "invoice_date" = Some VNull.
Proof.
  apply (missing_date_is_null sample_runtime (reliable (Some invoice_undated) None)
           "doc-1" "a.pdf" empty_world sample_url invoice_undated); discharge.
Defined.

(** X11.  A successful run does not clear what an earlier failure left: the
    row gets the status ['completed'] and keeps the [error_message] it
    had. *)
Theorem success_keeps_error_message rt env documentId fileUrl w url info old :
  documentId ≠ "" →
  records documentId w = [old] →
  log_reply env (tick w) = Returns tt →
  url_reply env (1 + tick w) = Returns {| publicUrl := url; urlError := None |} →
  extract_reply env (2 + tick w) = Returns (Some info) →
  date_parses rt info →
  upsert_reply env (3 + tick w) = Returns None →
  log_reply env (4 + tick w) = Returns tt →
  ∃ w' row,
    processDocument rt env documentId fileUrl w = (Returns succeeded, w')
    ∧ records documentId w' = [row]
    ∧ row !! "processing_status" = Some (VStr "completed")
    ∧ row !! "error_message" = old !! "error_message".
Proof.
  intros Hd Hold Hlog1 Hurl Hext Hdate Hup Hlog2.
  unfold records in *. unfold_run. simpl in *.
  destruct documentId as [|c documentId]; [done|]. simpl.
  rewrite Hlog1, Hurl. simpl. rewrite Hext.
  rewrite (date_check_passes _ _ Hdate). simpl.
  rewrite Hup. simpl. rewrite Hlog2.
  match goal with |- context [db_upsert ?new _ _ _] => set (sent := new) end.
  assert (Hid : sent !! "document_id" = Some (VStr (String c documentId)))
    by (subst sent; row_lookup).
  eexists _, (sent ∪ old). split; [reflexivity|]. simpl.
  split; [by rewrite (rows_for_upsert _ _ Hid), Hold|]. split.
  - apply lookup_union_Some_l. subst sent. row_lookup.
  - apply lookup_union_r. subst sent. row_lookup.
Qed.

Lemma success_keeps_error_message_witness :
  ∃ w' row,
    processDocument sample_runtime (reliable (Some invoice_42) None) "doc-1" "a.pdf"
      two_documents = (Returns succeeded, w')
    ∧ records "doc-1" w' = [row]
    ∧ row !! "processing_status" = Some (VStr "completed")
    ∧ row !! "error_message" = doc_1_row !! "error_message".
Proof.
  apply (success_keeps_error_message sample_runtime (reliable (Some invoice_42) None)
           "doc-1" "a.pdf" two_documents sample_url invoice_42 doc_1_row); discharge.
Defined.

Example stale_error_message :
  doc_1_row !! "error_message" = Some (VStr "Failed to extract document information").
Proof. vm_compute. reflexivity. Qed.

(** ** [getDocumentPageCount]: the estimate *)

(** X12.  One page per started 100 KiB: for a content length [n] below
    [2^53] the estimate [k] is the least positive integer with
    [n ≤ k * 102400]; up to 102400 bytes (also none, or a negative length)
    it is one page, and an exact multiple gets no extra page. *)
Theorem estimate_bounds (header : option string) (n : Z) :
  parseInt (str_or (default "" header) "0") = Num (inject_Z n) →
  (n < 2 ^ 53)%Z →
  ∃ k, estimatedPages_of header = Num (inject_Z k)
       ∧ (1 ≤ k)%Z
       ∧ (n ≤ k * 102400)%Z
       ∧ (102400 < n → (k - 1) * 102400 < n)%Z
       ∧ (n ≤ 102400 → k = 1)%Z.
Proof.
  intros Hn Hsafe. exists (spec_estimated_pages n).
  split; [by apply estimatedPages_of_integer|].
  unfold spec_estimated_pages.
  pose proof (ceil_div_spec n 102400 ltac:(lia)) as Hceil.
  repeat split; lia.
Qed.

Lemma estimate_bounds_witness :
  ∃ k, estimatedPages_of (Some "204800") = Num (inject_Z k)
       ∧ (1 ≤ k)%Z
       ∧ (204800 ≤ k * 102400)%Z
       ∧ (102400 < 204800 → (k - 1) * 102400 < 204800)%Z
       ∧ (204800 ≤ 102400 → k = 1)%Z.
Proof.
  apply (estimate_bounds (Some "204800") 204800); vm_compute; reflexivity.
Defined.

(** From [2^53] on the bound can fail: the length is rounded before it
    is divided. *)
Example estimate_above_safe_range :
  estimatedPages_of (Some "112589990684262401") = Num 1099511627776
  ∧ (1099511627776 * 102400 < 112589990684262401)%Z.
Proof. split; [vm_compute; reflexivity|lia]. Qed.

Example exact_multiple_two_pages : estimatedPages_of (Some "204800") = Num 2.
Proof. vm_compute. reflexivity. Qed.

Example one_byte_more_three_pages : estimatedPages_of (Some "204801") = Num 3.
Proof. vm_compute. reflexivity. Qed.

Example no_header_one_page : estimatedPages_of None = Num 1.
Proof. vm_compute. reflexivity. Qed.

(** ** [getDocumentPageCount]: every run *)

Lemma page_count_row_lookup (d : string) (est : number) (updated_at : string) :
  let r := to_row [("document_id", VStr d); ("page_count", VNum est);
                   ("updated_at", VStr updated_at)] in
  r !! "document_id" = Some (VStr d)
  ∧ r !! "page_count"
    = Some (match est with NaN | Infinity _ => VNull | Num _ => VNum est end)
  ∧ ∀ k, k ≠ "document_id" → k ≠ "page_count" → k ≠ "updated_at" → r !! k = None.
Proof.
  simpl. split; [row_lookup|]. split.
  - row_lookup. by destruct est.
  - intros k H1 H2 H3. unfold to_row. cbn [foldl].
    rewrite !set_column_lookup_ne by done. apply lookup_empty.
Qed.

(** The table after a run is the table before it, after at most one
    upsert for the document, which sends its identifier, a well-formed
    page count and the time, and nothing else. *)
Lemma getDocumentPageCount_table rt env documentId fileUrl w :
  ∃ rows,
    (length rows ≤ 1)%nat
    ∧ document_info (getDocumentPageCount rt env documentId fileUrl w).2
      = upserts rows (document_info w)
    ∧ ∀ r, r ∈ rows →
           r !! "document_id" = Some (VStr documentId)
           ∧ (∃ v, r !! "page_count" = Some v ∧ well_formed_count v)
           ∧ ∀ k, k ≠ "document_id" → k ≠ "page_count" → k ≠ "updated_at" →
                  r !! k = None.
Proof.
  assert (Hrow : ∀ est updated_at,
    (est = NaN ∨ est = Infinity false ∨ ∃ k, (1 ≤ k)%Z ∧ est = Num (inject_Z k)) →
    ∀ r, r ∈ [to_row [("document_id", VStr documentId); ("page_count", VNum est);
                      ("updated_at", VStr updated_at)]] →
         r !! "document_id" = Some (VStr documentId)
         ∧ (∃ v, r !! "page_count" = Some v ∧ well_formed_count v)
         ∧ ∀ k, k ≠ "document_id" → k ≠ "page_count" → k ≠ "updated_at" →
                r !! k = None).
  { intros est updated_at Hest r ->%list_elem_of_singleton.
    destruct (page_count_row_lookup documentId est updated_at) as (Hid & Hpc & Hk).
    split; [done|]. split; [|done].
    eexists. split; [exact Hpc|].
    destruct Hest as [->|[->|(k & Hk1 & ->)]]; [by left|by left|right; by exists k]. }
  unfold upserts. unfold_run. run_cases.
  all: first
    [ solve [ exists []; split; [simpl; lia|]; split; [reflexivity|];
              intros r Hr; by apply elem_of_nil in Hr ]
    | solve [ eexists [_]; split; [simpl; lia|]; split; [reflexivity|];
              apply Hrow;
              match goal with
              | |- context [estimatedPages_of ?h] =>
                  destruct (estimatedPages_of_cases h) as [[_ ?]|[?|?]]; auto
              end ] ].
Qed.

(** X13.  Whatever the collaborators do, a run of [getDocumentPageCount]
    leaves the rows of every other document as they were, keeps the
    uniqueness constraint of every identifier, removes no row and adds at
    most one. *)
Theorem page_count_frame rt env documentId fileUrl w any :
  unique_record any w →
  unique_record any (getDocumentPageCount rt env documentId fileUrl w).2
  ∧ (any ≠ documentId →
     records any (getDocumentPageCount rt env documentId fileUrl w).2 = records any w)
  ∧ (length (document_info w)
     ≤ length (document_info (getDocumentPageCount rt env documentId fileUrl w).2)
     ≤ S (length (document_info w)))%nat.
Proof.
  intros Huniq. unfold unique_record, records in *.
  destruct (getDocumentPageCount_table rt env documentId fileUrl w)
    as (rows & _ & -> & Hrows).
  assert (Hid : ∀ r, r ∈ rows → r !! "document_id" = Some (VStr documentId))
    by (intros r Hr; by apply Hrows).
  split; [|split].
  - destruct (decide (any = documentId)) as [->|Hne].
    + by apply upserts_unique.
    + by rewrite (upserts_other documentId rows Hid).
  - intros Hne. by apply (upserts_other documentId).
  - by apply (upserts_length documentId).
Qed.

Lemma page_count_frame_witness :
  unique_record "doc-2"
    (getDocumentPageCount sample_runtime (reliable None (Some "250000")) "doc-9" "a.pdf"
       two_documents).2
  ∧ ("doc-2" ≠ "doc-9" →
     records "doc-2"
       (getDocumentPageCount sample_runtime (reliable None (Some "250000")) "doc-9" "a.pdf"
          two_documents).2 = records "doc-2" two_documents)
  ∧ (length (document_info two_documents)
     ≤ length (document_info
         (getDocumentPageCount sample_runtime (reliable None (Some "250000")) "doc-9"
            "a.pdf" two_documents).2)
     ≤ S (length (document_info two_documents)))%nat.
Proof.
  apply (page_count_frame sample_runtime (reliable None (Some "250000")) "doc-9" "a.pdf"
           two_documents "doc-2"); discharge.
Defined.

(** X14.  In the row of the document a run of [getDocumentPageCount]
    changes nothing but [page_count] and [updated_at]: the status, the
    error message and the extracted fields stay as they were. *)
Theorem page_count_keeps_columns rt env documentId fileUrl w old k :
  records documentId w = [old] →
  k ≠ "page_count" → k ≠ "updated_at" → k ≠ "document_id" →
  ∃ row,
    records documentId (getDocumentPageCount rt env documentId fileUrl w).2 = [row]
    ∧ row !! k = old !! k.
Proof.
  intros Hold H1 H2 H3. unfold records in *.
  destruct (getDocumentPageCount_table rt env documentId fileUrl w)
    as (rows & _ & -> & Hrows).
  apply (upserts_keep_column documentId); [| |done]; intros r Hr.
  - by apply Hrows.
  - by apply (Hrows r Hr).
Qed.

Lemma page_count_keeps_columns_witness :
  ∃ row,
    records "doc-2"
      (getDocumentPageCount sample_runtime (reliable None (Some "250000")) "doc-2" "a.pdf"
         two_documents).2 = [row]
    ∧ row !! "processing_status" = doc_2_row !! "processing_status".
Proof.
  apply (page_count_keeps_columns sample_runtime (reliable None (Some "250000"))
           "doc-2" "a.pdf" two_documents doc_2_row "processing_status"); discharge.
Defined.

Lemma getDocumentPageCount_calls rt env documentId fileUrl w calls :
  issued w (getDocumentPageCount rt env documentId fileUrl w).2 calls →
  issued_first w (getDocumentPageCount rt env documentId fileUrl w).2
    (CallSelectPageCount "document_info" documentId)
  ∧ (1 ≤ length calls ≤ 4)%nat
  ∧ count_calls is_select calls = 1%nat
  ∧ (count_calls is_url calls ≤ 1)%nat
  ∧ (count_calls is_fetch calls ≤ 1)%nat
  ∧ (count_calls is_upsert calls ≤ 1)%nat
  ∧ count_calls is_log calls = 0%nat
  ∧ count_calls is_extract calls = 0%nat.
Proof.
  intros Hcalls. unfold issued_first. unfold_run. run_cases.
  all: known_calls Hcalls; unfold count_calls; simpl.
  all: split; [eexists; solve_issued|lia].
Qed.

(** X15.  The calls of a run: the lookup first, then at most one URL
    resolution, one probe and one upsert; never a write to the log or an
    extraction. *)
Theorem page_count_call_budget rt env documentId fileUrl w calls :
  issued w (getDocumentPageCount rt env documentId fileUrl w).2 calls →
  issued_first w (getDocumentPageCount rt env documentId fileUrl w).2
    (CallSelectPageCount "document_info" documentId)
  ∧ (1 ≤ length calls ≤ 4)%nat
  ∧ count_calls is_select calls = 1%nat
  ∧ (count_calls is_url calls ≤ 1)%nat
  ∧ (count_calls is_fetch calls ≤ 1)%nat
  ∧ (count_calls is_upsert calls ≤ 1)%nat
  ∧ count_calls is_log calls = 0%nat
  ∧ count_calls is_extract calls = 0%nat.
Proof. apply getDocumentPageCount_calls. Qed.

Lemma page_count_call_budget_witness :
  issued_first empty_world
    (getDocumentPageCount sample_runtime probe_fails "doc-1" "a.pdf" empty_world).2
    (CallSelectPageCount "document_info" "doc-1")
  ∧ (1 ≤ length [CallFetchHead sample_url; CallGetPublicUrl "documents" "a.pdf";
                 CallSelectPageCount "document_info" "doc-1"] ≤ 4)%nat
  ∧ count_calls is_select
      [CallFetchHead sample_url; CallGetPublicUrl "documents" "a.pdf";
       CallSelectPageCount "document_info" "doc-1"] = 1%nat
  ∧ (count_calls is_url
       [CallFetchHead sample_url; CallGetPublicUrl "documents" "a.pdf";
        CallSelectPageCount "document_info" "doc-1"] ≤ 1)%nat
  ∧ (count_calls is_fetch
       [CallFetchHead sample_url; CallGetPublicUrl "documents" "a.pdf";
        CallSelectPageCount "document_info" "doc-1"] ≤ 1)%nat
  ∧ (count_calls is_upsert
       [CallFetchHead sample_url; CallGetPublicUrl "documents" "a.pdf";
        CallSelectPageCount "document_info" "doc-1"] ≤ 1)%nat
  ∧ count_calls is_log
      [CallFetchHead sample_url; CallGetPublicUrl "documents" "a.pdf";
       CallSelectPageCount "document_info" "doc-1"] = 0%nat
  ∧ count_calls is_extract
      [CallFetchHead sample_url; CallGetPublicUrl "documents" "a.pdf";
       CallSelectPageCount "document_info" "doc-1"] = 0%nat.
Proof.
  apply (page_count_call_budget sample_runtime probe_fails "doc-1" "a.pdf" empty_world);
    discharge.
Defined.

(** ** [getDocumentPageCount]: the stored count *)

Lemma truthy_positive (v : Value) : positive_integer v → truthy v = true.
Proof.
  intros (k & Hk & ->). simpl. unfold Qeq_bool, inject_Z. simpl.
  rewrite Z.mul_1_r. change (0 * 1)%Z with 0%Z.
  destruct (Z.eqb_spec k 0); [lia|done].
Qed.


(** A stored count comes from a row of the table. *)
Lemma stored_page_count_truthy (d : string) (w : World) :
  truthy (stored_page_count d w) = true →
  ∃ r, r ∈ document_info w ∧ r !! "page_count" = Some (stored_page_count d w).
Proof.
  unfold stored_page_count, db_select_page_count.
  destruct (rows_for d (document_info w)) as [|r [|]] eqn:Hrows; try done.
  unfold page_count_of. simpl. rewrite lookup_singleton_eq. simpl.
  intros Htruthy. exists r. split.
  - assert (Hin : List.In r (rows_for d (document_info w))) by (rewrite Hrows; by left).
    apply List.filter_In in Hin as [Hin _]. by apply list_elem_of_In.
  - by destruct (r !! "page_count").
Qed.






(** An estimate that is [Infinity] is saved as [null], so that the next
    call estimates again. *)
Example Infinity_is_not_stored :
  let huge := Some ("1" ++ String.concat "" (List.repeat "0000000000" 31)) in
  let w1 := (getDocumentPageCount sample_runtime (reliable None huge) "doc-1" "a.pdf"
               empty_world).2 in
  List.map (λ r : Row, r !! "page_count") (records "doc-1" w1) = [Some VNull]
  ∧ length (history (getDocumentPageCount sample_runtime (reliable None huge) "doc-1"
                       "a.pdf" w1).2) = 8%nat.
Proof. split; vm_compute; reflexivity. Qed.

(** ** [getDocumentPageCount]: well-formed page counts *)

Lemma well_formed_upsert (new : Row) (onConflict : string) (tbl : Table) :
  page_counts_well_formed tbl →
  (∀ v, new !! "page_count" = Some v → well_formed_count v) →
  page_counts_well_formed (db_upsert new onConflict false tbl).
Proof.
  intros Htbl Hnew r v Hr Hv. unfold db_upsert in Hr.
  destruct (List.existsb _ tbl).
  - apply list_elem_of_In, List.in_map_iff in Hr as (old & <- & Hold).
    apply list_elem_of_In in Hold.
    destruct (conflicts onConflict new old); [|by eapply Htbl].
    apply lookup_union_Some_raw in Hv as [Hv|[_ Hv]]; [by apply Hnew|by eapply Htbl].
  - apply elem_of_app in Hr as [Hr|Hr%list_elem_of_singleton]; [by eapply Htbl|].
    subst. by apply Hnew.
Qed.

Lemma well_formed_upserts (rows : list Row) (tbl : Table) :
  page_counts_well_formed tbl →
  (∀ r v, r ∈ rows → r !! "page_count" = Some v → well_formed_count v) →
  page_counts_well_formed (upserts rows tbl).
Proof.
  unfold upserts. revert tbl.
  induction rows as [|r rs IH]; intros tbl Htbl Hrows; simpl; [done|].
  apply IH.
  - apply well_formed_upsert; [done|]. intros v. apply Hrows. by left.
  - intros r' v Hr'. apply Hrows. by right.
Qed.

Lemma stored_count_positive_of_well_formed (d : string) (w : World) :
  page_counts_well_formed (document_info w) → stored_count_positive d w.
Proof.
  intros Htbl Htruthy.
  destruct (stored_page_count_truthy d w Htruthy) as (r & Hr & Hv).
  destruct (Htbl r _ Hr Hv) as [Hnull|Hpos]; [|done].
  rewrite Hnull in Htruthy. discriminate Htruthy.
Qed.

Lemma getDocumentPageCount_well_formed rt env documentId fileUrl w :
  page_counts_well_formed (document_info w) →
  page_counts_well_formed
    (document_info (getDocumentPageCount rt env documentId fileUrl w).2)
  ∧ ∃ v, (getDocumentPageCount rt env documentId fileUrl w).1 = Returns v
         ∧ (positive_integer v
            ∨ (v = VNum NaN ∧ ¬ numeric_content_length env)
            ∨ (v = VNum (Infinity false) ∧ ¬ safe_content_length env)).
Proof.
  intros Htbl. split.
  - destruct (getDocumentPageCount_table rt env documentId fileUrl w)
      as (rows & _ & -> & Hrows).
    apply well_formed_upserts; [done|].
    intros r v Hr Hv. destruct (Hrows r Hr) as (_ & (v' & Hv' & Hwf) & _).
    congruence.
  - apply getDocumentPageCount_result.
    by apply stored_count_positive_of_well_formed.
Qed.

(** X17.  Well-formed page counts are an invariant of
    [getDocumentPageCount]: when every stored page count is [null] or a
    positive integer, it is so after the run ([NaN], [Infinity], zero or a
    negative count is never saved), and the result is a positive integer
    or, only when a content-length header is not numeric, [NaN], or, only
    when a content-length header is not read as an integer below [2^53],
    [Infinity]. *)
Theorem page_counts_stay_well_formed rt env documentId fileUrl w :
  page_counts_well_formed (document_info w) →
  page_counts_well_formed
    (document_info (getDocumentPageCount rt env documentId fileUrl w).2)
  ∧ ∃ v, (getDocumentPageCount rt env documentId fileUrl w).1 = Returns v
         ∧ (positive_integer v
            ∨ (v = VNum NaN ∧ ¬ numeric_content_length env)
            ∨ (v = VNum (Infinity false) ∧ ¬ safe_content_length env)).
Proof. apply getDocumentPageCount_well_formed. Qed.

Lemma page_counts_stay_well_formed_witness :
  page_counts_well_formed
    (document_info
       (getDocumentPageCount sample_runtime (reliable None (Some "chunked")) "doc-1" "a.pdf"
          empty_world).2)
  ∧ ∃ v, (getDocumentPageCount sample_runtime (reliable None (Some "chunked")) "doc-1"
            "a.pdf" empty_world).1 = Returns v
         ∧ (positive_integer v
            ∨ (v = VNum NaN ∧ ¬ numeric_content_length (reliable None (Some "chunked")))
            ∨ (v = VNum (Infinity false)
               ∧ ¬ safe_content_length (reliable None (Some "chunked")))).
Proof.
  apply (page_counts_stay_well_formed sample_runtime (reliable None (Some "chunked"))
           "doc-1" "a.pdf" empty_world).
  intros r v Hr. by apply elem_of_nil in Hr.
Defined.

(** With the header ["chunked"] the result is [NaN], and [null] is
    saved. *)
Example NaN_is_saved_as_null :
  (getDocumentPageCount sample_runtime (reliable None (Some "chunked")) "doc-1" "a.pdf"
     empty_world).1 = Returns (VNum NaN)
  ∧ List.map (λ r : Row, r !! "page_count")
      (records "doc-1"
         (getDocumentPageCount sample_runtime (reliable None (Some "chunked")) "doc-1"
            "a.pdf" empty_world).2)
    = [Some VNull].
Proof. split; vm_compute; reflexivity. Qed.

(** ** [fetchPageCounts] *)

Lemma getDocumentPageCount_pair rt env documentId fileUrl w :
  ∃ v w', getDocumentPageCount rt env documentId fileUrl w = (Returns v, w').
Proof.
  destruct (getDocumentPageCount_returns rt env documentId fileUrl w) as [v Hv].
  destruct (getDocumentPageCount rt env documentId fileUrl w) as [o w'] eqn:Hrun.
  simpl in Hv. subst. eauto.
Qed.

(** The result is never [null]: it is a stored count that is truthy, an
    estimate or 1. *)
Lemma getDocumentPageCount_not_null rt env documentId fileUrl w :
  (getDocumentPageCount rt env documentId fileUrl w).1 ≠ Returns VNull.
Proof.
  unfold_run. run_cases; try discriminate.
  intros [= Hnull].
  match goal with
  | H : _ && _ = true |- _ => apply andb_true_iff in H as [_ H]
  end.
  rewrite Hnull in *. discriminate.
Qed.

(** An assignment of a value that is not [null] keeps the prototype, and
    sets an own property unless the key is ['__proto__']. *)
Lemma set_property_own (k : string) (v : Value) (o : PlainObject) :
  inherits o = true → v ≠ VNull →
  set_property k v o
  = {| own := if String.eqb k "__proto__" then own o else <[k := v]> (own o);
       inherits := true |}.
Proof.
  intros Ho Hv. unfold set_property. rewrite Ho, andb_true_r.
  destruct (String.eqb k "__proto__"); [|done].
  destruct o as [m i]. simpl in *. subst i. by destruct v.
Qed.

(** One turn of the inner loop: the [catch] of lines 29-32 is not taken. *)
Lemma fetch_file_counts_cons rt env id url rest counts w v w' :
  getDocumentPageCount rt env id url w = (Returns v, w') →
  fetch_file_counts rt env id (url :: rest) counts w
  = fetch_file_counts rt env id rest (set_property url v counts) w'.
Proof.
  intros Hrun. simpl. unfold mbind, M_bind, try_catch, mret, M_ret. by rewrite Hrun.
Qed.

Lemma fetch_document_counts_cons rt env doc rest counts w counts' w' :
  fetch_file_counts rt env (doc_id doc) (file_urls doc) counts w = (Returns counts', w') →
  fetch_document_counts rt env (doc :: rest) counts w
  = fetch_document_counts rt env rest counts' w'.
Proof. intros Hrun. simpl. unfold mbind, M_bind. by rewrite Hrun. Qed.

(** What the loops keep: an invariant [I] of the counts and the world
    that every call of [getDocumentPageCount] keeps is kept by the
    loops, which always return. *)
Section Loops.

Context (rt : Runtime) (env : Env).
Context (I : PlainObject → World → Prop).
Context (Hstep : ∀ id url counts w v w',
  I counts w →
  getDocumentPageCount rt env id url w = (Returns v, w') →
  I (set_property url v counts) w').

Lemma fetch_file_counts_keeps id urls counts w :
  I counts w →
  ∃ counts' w',
    fetch_file_counts rt env id urls counts w = (Returns counts', w') ∧ I counts' w'.
Proof using Hstep.
  revert counts w. induction urls as [|url rest IH]; intros counts w HI.
  - by exists counts, w.
  - destruct (getDocumentPageCount_pair rt env id url w) as (v & w1 & Hrun).
    rewrite (fetch_file_counts_cons _ _ _ _ _ _ _ _ _ Hrun).
    apply IH. by eapply Hstep.
Qed.

Lemma fetch_document_counts_keeps documents counts w :
  I counts w →
  ∃ counts' w',
    fetch_document_counts rt env documents counts w = (Returns counts', w')
    ∧ I counts' w'.
Proof using Hstep.
  revert counts w. induction documents as [|doc rest IH]; intros counts w HI.
  - by exists counts, w.
  - destruct (fetch_file_counts_keeps (doc_id doc) (file_urls doc) counts w HI)
      as (counts1 & w1 & Hrun & HI1).
    rewrite (fetch_document_counts_cons _ _ _ _ _ _ _ _ Hrun).
    by apply IH.
Qed.

End Loops.

(** The own properties of the result: the files visited, except
    ['__proto__']. *)
Lemma fetch_file_counts_dom rt env id urls counts w :
  inherits counts = true →
  ∃ counts' w',
    fetch_file_counts rt env id urls counts w = (Returns counts', w')
    ∧ inherits counts' = true
    ∧ dom (own counts') = dom (own counts) ∪ (list_to_set urls ∖ {["__proto__"]}).
Proof.
  revert counts w. induction urls as [|url rest IH]; intros counts w Hcounts.
  - exists counts, w. split; [done|]. split; [done|]. set_solver.
  - destruct (getDocumentPageCount_pair rt env id url w) as (v & w1 & Hrun).
    rewrite (fetch_file_counts_cons _ _ _ _ _ _ _ _ _ Hrun).
    assert (Hv : v ≠ VNull).
    { intros ->. apply (getDocumentPageCount_not_null rt env id url w).
      by rewrite Hrun. }
    rewrite (set_property_own url v counts Hcounts Hv).
    destruct (IH {| own := if String.eqb url "__proto__" then own counts
                           else <[url := v]> (own counts);
                    inherits := true |} w1 eq_refl)
      as (counts' & w' & -> & Hinh & Hdom).
    exists counts', w'. split; [done|]. split; [done|].
    rewrite Hdom. simpl.
    destruct (String.eqb_spec url "__proto__") as [->|Hne].
    + set_solver.
    + rewrite dom_insert_L. set_solver.
Qed.

Lemma fetch_document_counts_dom rt env documents counts w :
  inherits counts = true →
  ∃ counts' w',
    fetch_document_counts rt env documents counts w = (Returns counts', w')
    ∧ inherits counts' = true
    ∧ dom (own counts')
      = dom (own counts) ∪ (list_to_set (all_file_urls documents) ∖ {["__proto__"]}).
Proof.
  revert counts w. induction documents as [|doc rest IH]; intros counts w Hcounts.
  - exists counts, w. split; [done|]. split; [done|]. set_solver.
  - destruct (fetch_file_counts_dom rt env (doc_id doc) (file_urls doc) counts w Hcounts)
      as (counts1 & w1 & Hrun & Hinh1 & Hdom1).
    rewrite (fetch_document_counts_cons _ _ _ _ _ _ _ _ Hrun).
    destruct (IH counts1 w1 Hinh1) as (counts' & w' & -> & Hinh & Hdom).
    exists counts', w'. split; [done|]. split; [done|].
    rewrite Hdom, Hdom1. unfold all_file_urls. simpl.
    rewrite list_to_set_app_L. set_solver.
Qed.

Lemma fetchPageCounts_own rt env documents w :
  ∃ counts w',
    fetchPageCounts rt env documents w = (Returns counts, w')
    ∧ inherits counts = true
    ∧ ∀ url, is_Some (own counts !! url)
             ↔ url ∈ all_file_urls documents ∧ url ≠ "__proto__".
Proof.
  unfold fetchPageCounts.
  destruct (fetch_document_counts_dom rt env documents empty_object w eq_refl)
    as (counts & w' & Hrun & Hinh & Hdom).
  exists counts, w'. split; [done|]. split; [done|]. intros url.
  rewrite <- elem_of_dom, Hdom. simpl. set_solver.
Qed.

(** X18.  [fetchPageCounts] always returns, whatever the collaborators
    do.  Its result still has [Object.prototype] as its prototype, and
    its own properties are the files of the documents, except a file
    named ['__proto__'], for which nothing is stored. *)
Theorem fetchPageCounts_total rt env documents w :
  ∃ counts w',
    fetchPageCounts rt env documents w = (Returns counts, w')
    ∧ inherits counts = true
    ∧ ∀ url, is_Some (own counts !! url)
             ↔ url ∈ all_file_urls documents ∧ url ≠ "__proto__".
Proof. apply fetchPageCounts_own. Qed.

(** A file named ['__proto__'] gets no count, and what is shown for it
    is not a number. *)
Example proto_file_has_no_count :
  let listed := {| doc_id := "doc-1"; doc_name := ""; file_urls := ["__proto__"];
                   created_at := "" |} in
  (fetchPageCounts sample_runtime (reliable None (Some "250000")) [listed] empty_world).1
    = Returns empty_object
  ∧ shown_pages empty_object "__proto__" = Inherited "__proto__"
  ∧ shown_pages empty_object "constructor" = Inherited "constructor"
  ∧ shown_pages empty_object "a.pdf" = Data (VNum (Num 1)).
Proof. repeat split; vm_compute; reflexivity. Qed.

(** What is shown for a count that is a positive integer, [NaN] or
    [Infinity]. *)
Lemma or_else_count (P : Prop) (v : Value) :
  positive_integer v ∨ v = VNum NaN ∨ (v = VNum (Infinity false) ∧ P) →
  positive_integer (or_else v (VNum (Num 1)))
  ∨ (or_else v (VNum (Num 1)) = VNum (Infinity false) ∧ P).
Proof.
  unfold or_else. intros [Hpos|[->|[-> HP]]].
  - left. by rewrite (truthy_positive v Hpos).
  - left. by exists 1%Z.
  - by right.
Qed.

(** X19.  When every stored page count is [null] or a positive integer,
    what the list shows for a name ([pageCounts[url] || 1]) after
    [fetchPageCounts] is a positive integer or, only when a content-length
    header is not read as an integer below [2^53], [Infinity]; except for
    the name of a member of [Object.prototype] that is not a file of the
    documents, and for ['__proto__'], where the inherited member is
    shown. *)
Theorem shown_pages_positive rt env documents w counts w' url :
  page_counts_well_formed (document_info w) →
  fetchPageCounts rt env documents w = (Returns counts, w') →
  (∃ v, shown_pages counts url = Data v
        ∧ (positive_integer v
           ∨ (v = VNum (Infinity false) ∧ ¬ safe_content_length env)))
  ∨ (shown_pages counts url = Inherited url
     ∧ url ∈ Object_prototype
     ∧ (url ∉ all_file_urls documents ∨ url = "__proto__")).
Proof.
  intros Htbl Hrun.
  destruct (fetchPageCounts_own rt env documents w) as (counts0 & w0 & Hrun0 & Hinh & Hown).
  rewrite Hrun in Hrun0. simplify_eq.
  unfold fetchPageCounts in Hrun.
  destruct (fetch_document_counts_keeps rt env
              (λ counts w, page_counts_well_formed (document_info w)
                           ∧ inherits counts = true
                           ∧ ∀ u v, own counts !! u = Some v →
                                    positive_integer v ∨ v = VNum NaN
                                    ∨ (v = VNum (Infinity false)
                                       ∧ ¬ safe_content_length env)))
    with (documents := documents) (counts := empty_object) (w := w)
    as (counts1 & w1 & Hrun1 & _ & _ & Hcounts).
  - intros id u cs w1 v w1' (Hwf & Hcs_inh & Hcs) Hstep.
    destruct (getDocumentPageCount_well_formed rt env id u w1 Hwf)
      as (Hwf' & v' & Hv' & Hres).
    assert (Hv : v ≠ VNull).
    { intros ->. apply (getDocumentPageCount_not_null rt env id u w1).
      by rewrite Hstep. }
    rewrite Hstep in Hwf', Hv'. simpl in *. simplify_eq. split; [done|].
    rewrite (set_property_own u v' cs Hcs_inh Hv). split; [done|]. simpl.
    intros u' v''. destruct (String.eqb u "__proto__"); [apply Hcs|].
    rewrite lookup_insert. case_decide.
    + intros [= <-]. destruct Hres as [?|[[-> _]|?]]; auto.
    + apply Hcs.
  - split; [done|]. split; [done|]. intros u v. simpl. by rewrite lookup_empty.
  - rewrite Hrun in Hrun1. simplify_eq.
    unfold shown_pages, get_property. rewrite Hinh. simpl.
    destruct (own counts1 !! url) as [v|] eqn:Hv.
    + left. eexists. split; [reflexivity|]. eapply or_else_count, Hcounts, Hv.
    + case_bool_decide as Hmember.
      * right. split; [done|]. split; [done|].
        destruct (decide (url = "__proto__")) as [|Hne]; [by right|left].
        intros Hin. assert (is_Some (own counts1 !! url)) as [? ?] by (by apply Hown).
        congruence.
      * left. eexists. split; [reflexivity|]. left. by exists 1%Z.
Qed.

Lemma shown_pages_positive_witness :
  (∃ v, shown_pages {| own := <["b.pdf" := VNum NaN]> (<["a.pdf" := VNum NaN]> ∅);
                       inherits := true |} "a.pdf" = Data v
        ∧ (positive_integer v
           ∨ (v = VNum (Infinity false)
              ∧ ¬ safe_content_length (reliable None (Some "chunked")))))
  ∨ (shown_pages {| own := <["b.pdf" := VNum NaN]> (<["a.pdf" := VNum NaN]> ∅);
                    inherits := true |} "a.pdf" = Inherited "a.pdf"
     ∧ "a.pdf" ∈ Object_prototype
     ∧ ("a.pdf" ∉ all_file_urls [two_files] ∨ "a.pdf" = "__proto__")).
Proof.
  apply (shown_pages_positive sample_runtime (reliable None (Some "chunked")) [two_files]
           empty_world
           {| own := <["b.pdf" := VNum NaN]> (<["a.pdf" := VNum NaN]> ∅);
              inherits := true |}
           (fetchPageCounts sample_runtime (reliable None (Some "chunked")) [two_files]
              empty_world).2 "a.pdf").
  - intros r v Hr. by apply elem_of_nil in Hr.
  - vm_compute. reflexivity.
Defined.



Lemma count_calls_app (p : Call → bool) (l1 l2 : list Call) :
  count_calls p (l1 ++ l2) = (count_calls p l1 + count_calls p l2)%nat.
Proof. unfold count_calls. by rewrite List.filter_app, length_app. Qed.

Lemma getDocumentPageCount_issued rt env documentId fileUrl w :
  ∃ calls, issued w (getDocumentPageCount rt env documentId fileUrl w).2 calls.
Proof. unfold issued. unfold_run. run_cases; eexists; solve_issued. Qed.

Lemma within_budget_app (n1 n2 : nat) (calls1 calls2 : list Call) :
  within_budget n1 calls1 → within_budget n2 calls2 →
  within_budget (n2 + n1) (calls2 ++ calls1).
Proof.
  unfold within_budget. intros (? & ? & ? & ?) (? & ? & ? & ?).
  rewrite !count_calls_app, length_app. lia.
Qed.

Lemma fetch_file_counts_budget rt env id urls counts w :
  ∃ counts' w' calls,
    fetch_file_counts rt env id urls counts w = (Returns counts', w')
    ∧ issued w w' calls
    ∧ within_budget (length urls) calls.
Proof.
  revert counts w. induction urls as [|url rest IH]; intros counts w.
  - exists counts, w, []. split; [done|]. split; [done|]. by repeat split.
  - destruct (getDocumentPageCount_pair rt env id url w) as (v & w1 & Hrun).
    destruct (getDocumentPageCount_issued rt env id url w) as (calls1 & Hcalls1).
    pose proof (getDocumentPageCount_calls rt env id url w calls1 Hcalls1)
      as (_ & Hlen & Hsel & _ & _ & _ & Hlog & Hext).
    rewrite Hrun in Hcalls1. simpl in Hcalls1.
    rewrite (fetch_file_counts_cons _ _ _ _ _ _ _ _ _ Hrun).
    destruct (IH (set_property url v counts) w1)
      as (counts' & w' & calls2 & -> & Hcalls2 & Hb).
    exists counts', w', (calls2 ++ calls1)%list. split; [done|]. split.
    + unfold issued in *. by rewrite Hcalls2, Hcalls1, app_assoc.
    + replace (length (url :: rest)) with (length rest + 1)%nat by (simpl; lia).
      apply within_budget_app; [|done]. unfold within_budget. repeat split; lia.
Qed.

Lemma fetch_document_counts_budget rt env documents counts w :
  ∃ counts' w' calls,
    fetch_document_counts rt env documents counts w = (Returns counts', w')
    ∧ issued w w' calls
    ∧ within_budget (length (all_file_urls documents)) calls.
Proof.
  revert counts w. induction documents as [|doc rest IH]; intros counts w.
  - exists counts, w, []. split; [done|]. split; [done|]. by repeat split.
  - destruct (fetch_file_counts_budget rt env (doc_id doc) (file_urls doc) counts w)
      as (counts1 & w1 & calls1 & Hrun & Hcalls1 & Hb1).
    rewrite (fetch_document_counts_cons _ _ _ _ _ _ _ _ Hrun).
    destruct (IH counts1 w1) as (counts' & w' & calls2 & -> & Hcalls2 & Hb2).
    exists counts', w', (calls2 ++ calls1)%list. split; [done|]. split.
    + unfold issued in *. by rewrite Hcalls2, Hcalls1, app_assoc.
    + unfold all_file_urls. simpl. rewrite length_app, Nat.add_comm.
      by apply within_budget_app.
Qed.

(** X21.  [fetchPageCounts] issues exactly one lookup for each file it
    visits and at most four calls for each; it never writes to the log
    and never calls the extraction. *)
Theorem fetchPageCounts_budget rt env documents w calls :
  issued w (fetchPageCounts rt env documents w).2 calls →
  count_calls is_select calls = length (all_file_urls documents)
  ∧ (length calls ≤ 4 * length (all_file_urls documents))%nat
  ∧ count_calls is_log calls = 0%nat
  ∧ count_calls is_extract calls = 0%nat.
Proof.
  intros Hcalls. unfold fetchPageCounts in Hcalls.
  destruct (fetch_document_counts_budget rt env documents empty_object w)
    as (counts' & w' & calls' & Hrun & Hcalls' & Hb).
  rewrite Hrun in Hcalls. simpl in Hcalls. unfold issued in *.
  rewrite Hcalls' in Hcalls. apply app_inv_tail in Hcalls. by subst.
Qed.

Lemma fetchPageCounts_budget_witness :
  count_calls is_select
    [CallSelectPageCount "document_info" "doc-1";
     CallUpsert "document_info"
       [("document_id", VStr "doc-1"); ("page_count", VNum (Num 3));
        ("updated_at", VStr "T+3")] "document_id" false;
     CallFetchHead sample_url;
     CallGetPublicUrl "documents" "a.pdf";
     CallSelectPageCount "document_info" "doc-1"]
  = length (all_file_urls [two_files])
  ∧ (length
       [CallSelectPageCount "document_info" "doc-1";
        CallUpsert "document_info"
          [("document_id", VStr "doc-1"); ("page_count", VNum (Num 3));
           ("updated_at", VStr "T+3")] "document_id" false;
        CallFetchHead sample_url;
        CallGetPublicUrl "documents" "a.pdf";
        CallSelectPageCount "document_info" "doc-1"]
     ≤ 4 * length (all_file_urls [two_files]))%nat
  ∧ count_calls is_log
      [CallSelectPageCount "document_info" "doc-1";
       CallUpsert "document_info"
         [("document_id", VStr "doc-1"); ("page_count", VNum (Num 3));
          ("updated_at", VStr "T+3")] "document_id" false;
       CallFetchHead sample_url;
       CallGetPublicUrl "documents" "a.pdf";
       CallSelectPageCount "document_info" "doc-1"] = 0%nat
  ∧ count_calls is_extract
      [CallSelectPageCount "document_info" "doc-1";
       CallUpsert "document_info"
         [("document_id", VStr "doc-1"); ("page_count", VNum (Num 3));
          ("updated_at", VStr "T+3")] "document_id" false;
       CallFetchHead sample_url;
       CallGetPublicUrl "documents" "a.pdf";
       CallSelectPageCount "document_info" "doc-1"] = 0%nat.
Proof.
  apply (fetchPageCounts_budget sample_runtime (reliable None (Some "250000"))
           [two_files] empty_world).
  vm_compute. reflexivity.
Defined.

(** ** [handlePreview] and [handleOpenInNewTab] *)

(** X22.  The two handlers never throw and issue one call, the URL
    resolution.  When it succeeds, [handlePreview] shows the resolved URL
    and [handleOpenInNewTab] opens it in a new tab, with no toast; when it
    reports an error or rejects, the preview and the windows stay as they
    were and one toast carries the message of the error. *)
Theorem handlers_outcome env path v w :
  ∃ shown opened_,
    handlePreview env path v w
      = (Returns shown, record (CallGetPublicUrl "documents" path) w)
    ∧ handleOpenInNewTab env path v w
      = (Returns opened_, record (CallGetPublicUrl "documents" path) w)
    ∧ ((∃ url,
          url_reply env (tick w) = Returns {| publicUrl := url; urlError := None |}
          ∧ shown = setPreviewUrl (Some url) v
          ∧ opened_ = window_open url "_blank" v)
       ∨ (∃ e,
            (url_reply env (tick w) = Throws e
             ∨ ∃ url, url_reply env (tick w)
                      = Returns {| publicUrl := url; urlError := Some e |})
            ∧ shown = toast_error ("Failed to preview file: " ++ message e) v
            ∧ opened_ = toast_error ("Failed to open file: " ++ message e) v)).
Proof.
  unfold handlePreview, handleOpenInNewTab.
  unfold mbind, M_bind, try_catch, mret, M_ret, throw, getPublicUrl. simpl.
  destruct (url_reply env (tick w)) as [[url [e|]]|e] eqn:Hreply; simpl.
  - eexists _, _. split; [reflexivity|]. split; [reflexivity|].
    right. exists e. split; [right; by exists url|done].
  - eexists _, _. split; [reflexivity|]. split; [reflexivity|].
    left. by exists url.
  - eexists _, _. split; [reflexivity|]. split; [reflexivity|].
    right. exists e. split; [by left|done].
Qed.

(** A failed preview keeps the preview that is shown. *)
Example failed_preview_keeps_preview :
  (handlePreview storage_error "a.pdf"
     {| previewUrl := Some "https://storage/documents/b.pdf"; toasts := []; opened := [] |}
     empty_world).1
  = Returns {| previewUrl := Some "https://storage/documents/b.pdf";
               toasts := ["Failed to preview file: Object not found"];
               opened := [] |}.
Proof. reflexivity. Qed.

(** ** [AdminLayout] *)

(** X23.  For every pathname at most one item of the navigation is
    active, and an item is active exactly when the pathname is its path:
    a path below it, or with a trailing slash, activates nothing. *)
Theorem one_active_item (pathname : string) :
  (length (List.filter (Admin.isActive pathname) Admin.navItems) ≤ 1)%nat
  ∧ (∀ item, Admin.isActive pathname item = true ↔ pathname = Admin.path item)
  ∧ (length (List.filter (Admin.isActive pathname) Admin.navItems) = 1%nat
     ↔ pathname ∈ List.map Admin.path Admin.navItems).
Proof.
  assert (Hcases : pathname = "/admin/departments" ∨ pathname = "/admin/employees"
                   ∨ pathname = "/admin/invoices" ∨ pathname = "/admin/upload"
                   ∨ List.filter (Admin.isActive pathname) Admin.navItems = []).
  { unfold Admin.navItems, Admin.isActive. simpl.
    repeat match goal with
           | |- context [String.eqb pathname ?s] =>
               destruct (String.eqb_spec pathname s) as [->|?]
           end; auto 10. }
  split; [|split].
  - destruct Hcases as [->|[->|[->|[->|Hnone]]]]; try rewrite Hnone; simpl; lia.
  - intros item. apply String.eqb_eq.
  - split.
    + destruct Hcases as [->|[->|[->|[->|Hnone]]]]; try rewrite Hnone; simpl;
        first [set_solver | lia].
    + intros Hin. unfold Admin.navItems in Hin. simpl in Hin.
      repeat (apply elem_of_cons in Hin as [->|Hin]; [reflexivity|]).
      by apply elem_of_nil in Hin.
Qed.

Example sub_path_activates_nothing :
  List.filter (Admin.isActive "/admin/invoices/42") Admin.navItems = []
  ∧ List.filter (Admin.isActive "/admin/invoices/") Admin.navItems = []
  ∧ List.map (λ l, l.1.2) (Admin.links "/admin/invoices")
    = ["text-gray-300 hover:bg-gray-700 hover:text-white";
       "text-gray-300 hover:bg-gray-700 hover:text-white";
       "bg-gray-900 text-white";
       "text-gray-300 hover:bg-gray-700 hover:text-white"].
Proof. repeat split; reflexivity. Qed.
